(** * Event / Booking data-integrity layer

    A shallow embedding of [database/event.model.js] and
    [database/booking.model.js]: slug derivation, time and date
    normalisation, the required-field check of the Event pre-save hook, and
    the email validator and referential check of the Booking model.

    JavaScript strings are sequences of UTF-16 code units; they are modelled
    as [list N].  The regular expressions of the source are transcribed as
    terms of a small regex syntax and run by a backtracking matcher that
    follows the order in which an ECMAScript engine explores alternatives. *)

From Stdlib Require Import List NArith ZArith Bool Lia.
From Stdlib Require Import Ascii String DecimalString.
From stdpp Require Import gmap.

Import ListNotations.
Local Open Scope N_scope.

(** ** JavaScript strings *)

Module JsString.

Definition jsstring : Type := list N.

(** A string literal of the source, as code units. *)
Definition js (s : String.string) : jsstring :=
  List.map N_of_ascii (list_ascii_of_string s).

Definition in_range (lo hi c : N) : bool := (lo <=? c) && (c <=? hi).

Definition is_lower (c : N) : bool := in_range 97 122 c.   (* a-z *)
Definition is_upper (c : N) : bool := in_range 65 90 c.    (* A-Z *)
Definition is_digit (c : N) : bool := in_range 48 57 c.    (* 0-9, \d *)
Definition is_hyphen (c : N) : bool := c =? 45.
Definition is_ascii (c : N) : bool := c <? 128.

(** LineTerminator: LF, CR, LS, PS. *)
Definition is_line_terminator (c : N) : bool :=
  (c =? 10) || (c =? 13) || (c =? 8232) || (c =? 8233).

(** [\s], which is also the set removed by [String.prototype.trim]:
    WhiteSpace (TAB, VT, FF, SP, NBSP, ZWNBSP and category Zs) together
    with LineTerminator. *)
Definition is_space (c : N) : bool :=
  in_range 9 13 c || (c =? 32) || (c =? 160) || (c =? 5760)
  || in_range 8192 8202 c || (c =? 8232) || (c =? 8233)
  || (c =? 8239) || (c =? 8287) || (c =? 12288) || (c =? 65279).

Fixpoint drop_while (p : N -> bool) (s : jsstring) : jsstring :=
  match s with
  | [] => []
  | c :: s' => if p c then drop_while p s' else s
  end.

Definition drop_while_end (p : N -> bool) (s : jsstring) : jsstring :=
  rev (drop_while p (rev s)).

(** [String.prototype.trim] *)
Definition trim (s : jsstring) : jsstring :=
  drop_while_end is_space (drop_while is_space s).

Definition lower_ascii (c : N) : N := if is_upper c then c + 32 else c.

(** [String.prototype.toLowerCase].  On a string of ASCII code units the
    result is the A-Z to a-z map, one code unit at a time.  On any other
    string the result comes from the engine's Unicode tables (special
    casing, final sigma), which are not part of the repository: they are
    the parameter [unicode_lower]. *)
Definition toLowerCase (unicode_lower : jsstring -> jsstring)
    (s : jsstring) : jsstring :=
  if forallb is_ascii s then List.map lower_ascii s else unicode_lower s.

(** [String(n)] for a non-negative integer. *)
Definition String_of_N (n : N) : jsstring :=
  js (NilEmpty.string_of_uint (N.to_uint n)).

(** [Number(s)] for a string of decimal digits. *)
Definition Number_of_digits (s : jsstring) : N :=
  fold_left (fun acc c => 10 * acc + (c - 48)) s 0.

(** [s.padStart(n, '0')] *)
Definition padStart0 (n : nat) (s : jsstring) : jsstring :=
  repeat 48 (n - length s) ++ s.

End JsString.
Import JsString.

(** ** Regular expressions *)

Module Regex.

Inductive regex : Type :=
| Cls (p : N -> bool)            (* one code unit of a class *)
| Bol                            (* ^ *)
| Eol                            (* $ *)
| Eps
| Seq (r1 r2 : regex)
| Alt (r1 r2 : regex)            (* r1|r2, r1 tried first *)
| Star (r : regex)               (* greedy r* *)
| Group (n : nat) (r : regex).   (* capturing group number n *)

Definition Plus (r : regex) : regex := Seq r (Star r).      (* r+ *)
Definition Opt (r : regex) : regex := Alt r Eps.            (* r? *)
Definition Chr (c : N) : regex := Cls (fun x => x =? c).
(** A letter under the [i] flag: the letter itself or its capital. *)
Definition ChrI (c : N) : regex := Cls (fun x => (x =? c) || (x =? c - 32)).

(** State of a match in progress: the index reached, the input that is
    left, and the captures recorded so far (latest first). *)
Record mstate : Type := MState {
  pos : nat;
  rest : jsstring;
  caps : list (nat * jsstring)
}.

(** Greedy iteration of a matcher [step]: one more iteration first, then
    stopping here.  An iteration that consumes nothing is rejected, as in
    ECMAScript's RepeatMatcher, so [fuel] = the length of the input that
    is left bounds the number of iterations. *)
Fixpoint star_loop (step : mstate -> list mstate) (fuel : nat)
    (st : mstate) {struct fuel} : list mstate :=
  match fuel with
  | O => [st]
  | S fuel' =>
      flat_map
        (fun st' =>
           if (pos st <? pos st')%nat then star_loop step fuel' st' else [])
        (step st)
      ++ [st]
  end.

(** All the ways [r] can match at [st], in the order a backtracking
    engine tries them.  A capture set in an earlier iteration of a starred
    group is kept rather than reset; no capture of a starred group is read
    by the source. *)
Fixpoint run (r : regex) (st : mstate) : list mstate :=
  match r with
  | Cls p =>
      match rest st with
      | c :: s' => if p c then [MState (S (pos st)) s' (caps st)] else []
      | [] => []
      end
  | Bol => match pos st with O => [st] | S _ => [] end
  | Eol => match rest st with [] => [st] | _ :: _ => [] end
  | Eps => [st]
  | Seq r1 r2 => flat_map (run r2) (run r1 st)
  | Alt r1 r2 => run r1 st ++ run r2 st
  | Star r' => star_loop (run r') (length (rest st)) st
  | Group n r' =>
      List.map
        (fun st' =>
           MState (pos st') (rest st')
             ((n, firstn (pos st' - pos st) (rest st)) :: caps st'))
        (run r' st)
  end.

(** The value of capture [n], [None] when the group did not take part. *)
Fixpoint capture (n : nat) (cs : list (nat * jsstring)) : option jsstring :=
  match cs with
  | [] => None
  | (k, w) :: cs' => if (k =? n)%nat then Some w else capture n cs'
  end.

(** First match starting at index [p] or later, where [s] is the input
    from [p] on: the start index and the final state. *)
Fixpoint exec_from (r : regex) (p : nat) (s : jsstring)
    : option (nat * mstate) :=
  match run r (MState p s []) with
  | st :: _ => Some (p, st)
  | [] =>
      match s with
      | [] => None
      | _ :: s' => exec_from r (S p) s'
      end
  end.

(** [s.match(r)] without the [g] flag: the captures, or [None] for null. *)
Definition match_ (r : regex) (s : jsstring) : option (list (nat * jsstring)) :=
  option_map (fun m => caps (snd m)) (exec_from r 0 s).

(** [r.test(s)] *)
Definition test (r : regex) (s : jsstring) : bool :=
  match exec_from r 0 s with Some _ => true | None => false end.

(** [s.replace(r, rep)] with the [g] flag and a replacement without [$]
    patterns.  [p] is the index of the head of [s]; [skip] counts the code
    units of the current match that are still to be dropped.  After an
    empty match the scan moves on by one code unit, which is copied. *)
Fixpoint replace_from (r : regex) (rep : jsstring) (p skip : nat)
    (s : jsstring) : jsstring :=
  match skip with
  | S k =>
      match s with
      | [] => []
      | _ :: s' => replace_from r rep (S p) k s'
      end
  | O =>
      match run r (MState p s []) with
      | st :: _ =>
          rep ++
          match s with
          | [] => []
          | c :: s' =>
              if (pos st =? p)%nat then c :: replace_from r rep (S p) 0 s'
              else replace_from r rep (S p) (pos st - p - 1) s'
          end
      | [] =>
          match s with
          | [] => []
          | c :: s' => c :: replace_from r rep (S p) 0 s'
          end
      end
  end.

Definition replace_g (r : regex) (rep s : jsstring) : jsstring :=
  replace_from r rep 0 0 s.

End Regex.
Import Regex.

(** ** Numbers and dates of the host *)

Module JsDate.

Local Open Scope Z_scope.

(** A Number that is an integer or NaN ([None]). *)
Definition number : Type := option Z.

Definition String_of_Z (z : Z) : jsstring :=
  if z <? 0 then 45%N :: String_of_N (Z.to_N (- z)) else String_of_N (Z.to_N z).

(** [String(x)] *)
Definition String_of_number (x : number) : jsstring :=
  match x with
  | Some z => String_of_Z z
  | None => js "NaN"
  end.

Definition msPerDay : Z := 86400000.
Definition msPerHour : Z := 3600000.
Definition msPerMinute : Z := 60000.

(** TimeClip: a time value is at most 8.64e15 ms away from the epoch. *)
Definition TimeClip (t : Z) : number :=
  if Z.abs t <=? 8640000000000000 then Some t else None.

Definition Day (t : Z) : Z := t / msPerDay.
Definition HourFromTime (t : Z) : Z := (t / msPerHour) mod 24.
Definition MinFromTime (t : Z) : Z := (t / msPerMinute) mod 60.
Definition SecFromTime (t : Z) : Z := (t / 1000) mod 60.
Definition msFromTime (t : Z) : Z := t mod 1000.

(** Year, month (1-12) and day of the month (1-31) of a day number, in
    the proleptic Gregorian calendar; day 0 is 1970-01-01. *)
Definition civil_from_days (days : Z) : Z * Z * Z :=
  let z := days + 719468 in
  let era := z / 146097 in
  let doe := z - era * 146097 in
  let yoe := (doe - doe / 1460 + doe / 36524 - doe / 146096) / 365 in
  let doy := doe - (365 * yoe + yoe / 4 - yoe / 100) in
  let mp := (5 * doy + 2) / 153 in
  let d := doy - (153 * mp + 2) / 5 + 1 in
  let m := if mp <? 10 then mp + 3 else mp - 9 in
  let y := yoe + era * 400 + (if m <=? 2 then 1 else 0) in
  (y, m, d).

(** The last [k] decimal digits of [n], most significant first. *)
Fixpoint fixed_digits (k : nat) (n : Z) : jsstring :=
  match k with
  | O => []
  | S k' => fixed_digits k' (n / 10) ++ [Z.to_N (48 + n mod 10)]
  end.

(** The year of the date-time string format: four digits, or a sign and
    six digits outside 0..9999. *)
Definition iso_year (y : Z) : jsstring :=
  if (0 <=? y) && (y <=? 9999) then fixed_digits 4 y
  else (if y <? 0 then 45%N else 43%N) :: fixed_digits 6 (Z.abs y).

Definition iso_date (t : Z) : jsstring :=
  let '(y, m, d) := civil_from_days (Day t) in
  iso_year y ++ [45%N] ++ fixed_digits 2 m ++ [45%N] ++ fixed_digits 2 d.

(** [Date.prototype.toISOString] of a valid time value (UTC). *)
Definition toISOString (t : Z) : jsstring :=
  iso_date t ++ [84%N]
  ++ fixed_digits 2 (HourFromTime t) ++ [58%N]
  ++ fixed_digits 2 (MinFromTime t) ++ [58%N]
  ++ fixed_digits 2 (SecFromTime t) ++ [46%N]
  ++ fixed_digits 3 (msFromTime t) ++ [90%N].

(** [s.split(sep)[0]] for a separator of one code unit. *)
Fixpoint split_first (sep : N) (s : jsstring) : jsstring :=
  match s with
  | [] => []
  | c :: s' => if (c =? sep)%N then [] else c :: split_first sep s'
  end.

(** What the engine supplies: the Unicode part of [toLowerCase],
    [Date.parse], whose result outside the date-time string format is
    implementation-defined, and the offset of local time from UTC at a
    given time value. *)
Record host : Type := Host {
  Unicode_lower : jsstring -> jsstring;
  Date_parse : jsstring -> number;
  LocalTZA : Z -> Z
}.

Section WithHost.
Variable H : host.

(** [new Date(x)] for a string or a number [x]: the time value held. *)
Definition Date_of_string (s : jsstring) : number :=
  match Date_parse H s with
  | Some t => TimeClip t
  | None => None
  end.
Definition Date_of_number (t : Z) : number := TimeClip t.

Definition LocalTime (t : Z) : Z := t + LocalTZA H t.

Definition getHours (d : number) : number :=
  option_map (fun t => HourFromTime (LocalTime t)) d.
Definition getMinutes (d : number) : number :=
  option_map (fun t => MinFromTime (LocalTime t)) d.
End WithHost.

End JsDate.
Import JsDate.

(** ** event.model.js: slugify *)

Section Slug.

Variable H : host.

(** [/[^a-z0-9\s-]/g] *)
Definition slug_keep (c : N) : bool :=
  is_lower c || is_digit c || is_space c || is_hyphen c.
Definition re_not_slug_char : regex := Cls (fun c => negb (slug_keep c)).
(** [/\s+/g] *)
Definition re_spaces : regex := Plus (Cls is_space).
(** [/-+/g] *)
Definition re_hyphens : regex := Plus (Chr 45).
(** [/^-+|-+$/g] *)
Definition re_edge_hyphens : regex :=
  Alt (Seq Bol (Plus (Chr 45))) (Seq (Plus (Chr 45)) Eol).

Definition slugify (text : jsstring) : jsstring :=
  replace_g re_edge_hyphens []
    (replace_g re_hyphens [45]
       (replace_g re_spaces [45]
          (replace_g re_not_slug_char []
             (trim (toLowerCase (Unicode_lower H) text))))).

End Slug.

(** ** JavaScript values at the interface of [normalizeTime] *)

Inductive jsvalue : Type :=
| VUndefined
| VNull
| VBoolean (b : bool)
| VNumber (x : number)
| VString (s : jsstring)
| VObject (ref : N).

(** ToBoolean *)
Definition truthy (v : jsvalue) : bool :=
  match v with
  | VUndefined | VNull => false
  | VBoolean b => b
  | VNumber (Some z) => negb (z =? 0)%Z
  | VNumber None => false
  | VString s => match s with [] => false | _ :: _ => true end
  | VObject _ => true
  end.

Definition typeof_is_string (v : jsvalue) : bool :=
  match v with VString _ => true | _ => false end.

(** ** event.model.js: normalizeTime *)

Section Time.

Variable H : host.

Definition digit : regex := Cls is_digit.

(** [/^(\d{1,2}):(\d{2})$/] *)
Definition re_hhmm : regex :=
  Seq Bol
    (Seq (Group 1 (Seq digit (Opt digit)))
       (Seq (Chr 58)
          (Seq (Group 2 (Seq digit digit)) Eol))).

(** [/^(\d{1,2})(?::(\d{2}))?\s*(am|pm)$/i] *)
Definition re_ampm : regex :=
  Seq Bol
    (Seq (Group 1 (Seq digit (Opt digit)))
       (Seq (Opt (Seq (Chr 58) (Group 2 (Seq digit digit))))
          (Seq (Star (Cls is_space))
             (Seq (Group 3 (Alt (Seq (ChrI 97) (ChrI 109))
                                (Seq (ChrI 112) (ChrI 109))))
                Eol)))).

(** [/pm/i] *)
Definition re_pm : regex := Seq (ChrI 112) (ChrI 109).

(** The template [`${String(h).padStart(2, '0')}:${String(m).padStart(2, '0')}`] *)
Definition hh_mm (h m : jsstring) : jsstring :=
  padStart0 2 h ++ [58] ++ padStart0 2 m.

Definition group (n : nat) (m : list (nat * jsstring)) : jsstring :=
  match capture n m with Some w => w | None => [] end.

(** The body of [normalizeTime] once [value] is a non-empty string. *)
Definition normalizeTime_string (value : jsstring) : jsstring :=
  let v := trim value in
  let after_hhmm :=
    match match_ re_ampm v with
    | Some ampm =>
        let h := Number_of_digits (group 1 ampm) in
        let m := match capture 2 ampm with
                 | Some w => Number_of_digits w
                 | None => 0
                 end in
        let isPm := test re_pm (group 3 ampm) in
        let h := if h =? 12 then (if isPm then 12 else 0)
                 else if isPm then h + 12 else h in
        hh_mm (String_of_N h) (String_of_N m)
    | None =>
        match Date_parse H v with
        | Some parsed =>
            let d := Date_of_number parsed in
            hh_mm (String_of_number (getHours H d))
                  (String_of_number (getMinutes H d))
        | None => v
        end
    end in
  match match_ re_hhmm v with
  | Some hhmm =>
      let h := Number_of_digits (group 1 hhmm) in
      let m := Number_of_digits (group 2 hhmm) in
      if (0 <=? h) && (h <? 24) && (0 <=? m) && (m <? 60)
      then hh_mm (String_of_N h) (String_of_N m)
      else after_hhmm
  | None => after_hhmm
  end.

Definition normalizeTime (value : jsvalue) : jsvalue :=
  if negb (truthy value) || negb (typeof_is_string value) then value
  else match value with
       | VString s => VString (normalizeTime_string s)
       | _ => value
       end.

End Time.

(** ** event.model.js: the schema and its pre-save hook *)

(** What a hook hands to [next]: nothing, or an [Error] with a message. *)
Inductive outcome : Type :=
| Next
| NextError (message : jsstring).

Module Event.

(** A document of [EventSchema], with the paths Mongoose has marked as
    modified.  A path of type String holds a string or nothing; an array
    path holds an array of strings or nothing. *)
Record doc : Type := Doc {
  title : option jsstring;
  slug : option jsstring;
  description : option jsstring;
  overview : option jsstring;
  image : option jsstring;
  venue : option jsstring;
  location : option jsstring;
  date : option jsstring;
  time : option jsstring;
  mode : option jsstring;
  audience : option jsstring;
  agenda : option (list jsstring);
  organizer : option jsstring;
  tags : option (list jsstring);
  modifiedPaths : gset string
}.

Definition isModified (this : doc) (path : string) : bool :=
  bool_decide (path ∈ modifiedPaths this).

(** [this[f]] for the name of a String path. *)
Definition get (this : doc) (f : string) : option jsstring :=
  if String.eqb f "title" then title this
  else if String.eqb f "slug" then slug this
  else if String.eqb f "description" then description this
  else if String.eqb f "overview" then overview this
  else if String.eqb f "image" then image this
  else if String.eqb f "venue" then venue this
  else if String.eqb f "location" then location this
  else if String.eqb f "date" then date this
  else if String.eqb f "time" then time this
  else if String.eqb f "mode" then mode this
  else if String.eqb f "audience" then audience this
  else if String.eqb f "organizer" then organizer this
  else None.

Definition set_slug (this : doc) (v : jsstring) : doc :=
  Doc (title this) (Some v) (description this) (overview this)
    (image this) (venue this) (location this) (date this) (time this)
    (mode this) (audience this) (agenda this) (organizer this) (tags this)
    (modifiedPaths this).

(** [date] and [time] are declared [trim: true]: the setter trims what is
    assigned. *)
Definition set_date (this : doc) (v : jsstring) : doc :=
  Doc (title this) (slug this) (description this) (overview this)
    (image this) (venue this) (location this) (Some (trim v)) (time this)
    (mode this) (audience this) (agenda this) (organizer this) (tags this)
    (modifiedPaths this).

Definition set_time (this : doc) (v : jsstring) : doc :=
  Doc (title this) (slug this) (description this) (overview this)
    (image this) (venue this) (location this) (date this) (Some (trim v))
    (mode this) (audience this) (agenda this) (organizer this) (tags this)
    (modifiedPaths this).

(** ToBoolean of a String path. *)
Definition present (o : option jsstring) : bool :=
  match o with
  | Some (_ :: _) => true
  | _ => false
  end.

(** [x || ''] *)
Definition or_empty (o : option jsstring) : jsstring :=
  match o with
  | Some s => s
  | None => []
  end.

(** [!this[f] || String(this[f]).trim() === ''] *)
Definition blank (o : option jsstring) : bool :=
  negb (present o) ||
  match trim (or_empty o) with [] => true | _ :: _ => false end.

(** [!Array.isArray(a) || a.length === 0] *)
Definition empty_array (a : option (list jsstring)) : bool :=
  match a with
  | Some (_ :: _) => false
  | _ => true
  end.

Definition requiredStringFields : list string :=
  [ "title"; "description"; "overview"; "image"; "venue"; "location";
    "date"; "time"; "mode"; "audience"; "organizer" ]%string.

Definition required_message (f : string) : jsstring :=
  js (f ++ " is required and cannot be empty").
Definition agenda_message : jsstring :=
  js "agenda must be a non-empty array of strings".
Definition tags_message : jsstring :=
  js "tags must be a non-empty array of strings".

(** The [for ... of] loop over the required String paths: the first blank
    one ends the hook. *)
Fixpoint check_required (this : doc) (fs : list string) : option string :=
  match fs with
  | [] => None
  | f :: fs' => if blank (get this f) then Some f else check_required this fs'
  end.

Section Hook.
Variable H : host.

Definition generate_slug (this : doc) : doc :=
  if isModified this "title" || negb (present (slug this))
  then set_slug this (slugify H (or_empty (title this)))
  else this.

Definition normalize_date (this : doc) : doc :=
  if isModified this "date" && present (date this)
  then match Date_of_string H (or_empty (date this)) with
       | Some t => set_date this (split_first 84 (toISOString t))
       | None => this
       end
  else this.

Definition normalize_time (this : doc) : doc :=
  if isModified this "time" && present (time this)
  then match normalizeTime H (VString (or_empty (time this))) with
       | VString s => set_time this s
       | _ => this
       end
  else this.

Definition validate_required (this : doc) : outcome :=
  match check_required this requiredStringFields with
  | Some f => NextError (required_message f)
  | None =>
      if empty_array (agenda this) then NextError agenda_message
      else if empty_array (tags this) then NextError tags_message
      else Next
  end.

(** [EventSchema.pre('save', ...)]: the document as the hook leaves it,
    and what it hands to [next]. *)
Definition pre_save (this : doc) : doc * outcome :=
  let this := generate_slug this in
  let this := normalize_date this in
  let this := normalize_time this in
  (this, validate_required this).
End Hook.

End Event.

(** ** booking.model.js *)

Module Booking.

Definition ObjectId : Type := N.

(** The outcome of an awaited query. *)
Inductive settled (A : Type) : Type :=
| Resolved (a : A)
| Rejected (reason : jsstring).
Arguments Resolved {A} a.
Arguments Rejected {A} reason.

(** A registered model, as far as the hook uses it: [exists({ _id })],
    truthy when a document with that identifier is found. *)
Record model : Type := Model {
  exists_ : ObjectId -> settled bool
}.

(** The model of a reachable Event collection. *)
Definition model_of (events : gmap ObjectId Event.doc) : model :=
  Model (fun id => Resolved (bool_decide (is_Some (events !! id)))).

(** [mongoose.models]: the registered models by name. *)
Definition models : Type := gmap string model.

Record doc : Type := Doc {
  _id : ObjectId;
  eventId : option ObjectId;
  email : option jsstring
}.

(** The negated class of the validator: anything but angle brackets,
    parentheses, square brackets, backslash, dot, comma, semicolon, colon,
    white space, the at sign and the double quote. *)
Definition atext (c : N) : bool :=
  negb ((c =? 60) || (c =? 62) || (c =? 40) || (c =? 41) || (c =? 91)
        || (c =? 93) || (c =? 92) || (c =? 46) || (c =? 44) || (c =? 59)
        || (c =? 58) || is_space c || (c =? 64) || (c =? 34)).

(** [.]: any code unit but a line terminator. *)
Definition any_char (c : N) : bool := negb (is_line_terminator c).

(** The parts of the validator's pattern: an atom, the unquoted and the
    quoted local part, the top-level segment of two code units or more,
    and the domain. *)
Definition atom : regex := Plus (Cls atext).
Definition re_unquoted : regex :=
  Group 2 (Seq atom (Star (Group 3 (Seq (Chr 46) atom)))).
Definition re_quoted : regex :=
  Group 4 (Seq (Chr 34) (Seq (Plus (Cls any_char)) (Chr 34))).
Definition re_tld : regex :=
  Seq (Cls atext) (Seq (Cls atext) (Star (Cls atext))).
Definition re_domain : regex :=
  Group 5 (Seq (Plus (Group 6 (Seq atom (Chr 46)))) re_tld).

(** The validator's pattern; the [i] flag changes nothing, no class of
    the pattern holding a letter. *)
Definition re_email : regex :=
  Seq Bol
    (Seq (Group 1 (Alt re_unquoted re_quoted))
       (Seq (Chr 64) (Seq re_domain Eol))).

Definition validator (v : jsstring) : bool := test re_email v.

(** [message: (props) => `${props.value} is not a valid email`] *)
Definition invalid_email_message (v : jsstring) : jsstring :=
  v ++ js " is not a valid email".

Section WithHost.
Variable H : host.

(** The setters of [email], [trim: true] and [lowercase: true]: Mongoose
    applies the setters of a path last declared first. *)
Definition set_email (v : jsstring) : jsstring :=
  trim (toLowerCase (Unicode_lower H) v).

(** [new Booking({ eventId, email })] with a fresh identifier. *)
Definition create (id : ObjectId) (ev : option ObjectId)
    (mail : option jsstring) : doc :=
  Doc id ev (option_map set_email mail).
End WithHost.

(** Built-in validation of the schema, run by [save] before the hooks:
    the failed paths with their messages, email before eventId as the
    ValidationError lists them.  The [required] validator of a path comes
    first, and a path reports its first failure. *)
Definition validate_eventId (this : doc) : list (string * jsstring) :=
  match eventId this with
  | Some _ => []
  | None => [("eventId"%string, js "eventId is required")]
  end.

Definition validate_email (this : doc) : list (string * jsstring) :=
  match email this with
  | Some (c :: s) =>
      if validator (c :: s) then []
      else [("email"%string, invalid_email_message (c :: s))]
  | _ => [("email"%string, js "Email is required")]
  end.

Definition validate (this : doc) : list (string * jsstring) :=
  validate_email this ++ validate_eventId this.

(** [BookingSchema.pre('save', ...)] *)
Definition pre_save (ms : models) (this : doc) : outcome :=
  match eventId this with
  | None => NextError (js "eventId is required")
  | Some id =>
      match ms !! "Event"%string with
      | None => NextError (js "Event model is not registered")
      | Some EventModel =>
          match exists_ EventModel id with
          | Resolved true => Next
          | Resolved false => NextError (js "Referenced eventId does not exist")
          | Rejected err => NextError err
          end
      end
  end.

(** How [save] ends. *)
Inductive result : Type :=
| Saved
| ValidationError (errors : list (string * jsstring))
| HookError (message : jsstring).

(** [doc.save()]: validation, then the pre-save hook, then the write to
    the Booking collection; the first failure ends it. *)
Definition save (ms : models) (bookings : gmap ObjectId doc) (this : doc)
    : gmap ObjectId doc * result :=
  match validate this with
  | (_ :: _) as errors => (bookings, ValidationError errors)
  | [] =>
      match pre_save ms this with
      | NextError message => (bookings, HookError message)
      | Next => (<[_id this := this]> bookings, Saved)
      end
  end.

End Booking.

(** ** The specification's wording of the derived notions *)

Module Spec.

(** Collapse each run of code units of class [p] into a single hyphen:
    the hyphen is emitted at the last code unit of the run. *)
Fixpoint collapse_runs (p : N -> bool) (s : jsstring) : jsstring :=
  match s with
  | [] => []
  | c :: s' =>
      if p c then
        match s' with
        | c' :: _ => if p c' then collapse_runs p s' else 45 :: collapse_runs p s'
        | [] => [45]
        end
      else c :: collapse_runs p s'
  end.

(** Strip leading and trailing hyphens. *)
Definition strip_hyphens (s : jsstring) : jsstring :=
  drop_while_end is_hyphen (drop_while is_hyphen s).

(** Not a lowercase letter, digit, white space or hyphen. *)
Definition stripped (c : N) : bool :=
  negb (is_lower c || is_digit c || is_space c || is_hyphen c).

(** Slug derivation in the words of the specification. *)
Definition derive_slug (H : host) (T : jsstring) : jsstring :=
  let lowered := toLowerCase (Unicode_lower H) T in
  let trimmed := trim lowered in
  let kept := List.filter (fun c => negb (stripped c)) trimmed in
  let spaced := collapse_runs is_space kept in
  let hyphenated := collapse_runs is_hyphen spaced in
  strip_hyphens hyphenated.

Fixpoint no_double_hyphen (s : jsstring) : bool :=
  match s with
  | c1 :: s' =>
      match s' with
      | c2 :: _ => negb (is_hyphen c1 && is_hyphen c2) && no_double_hyphen s'
      | [] => true
      end
  | [] => true
  end.

Definition starts_with_hyphen (s : jsstring) : bool :=
  match s with
  | c :: _ => is_hyphen c
  | [] => false
  end.

Definition slug_char (c : N) : bool := is_lower c || is_digit c || is_hyphen c.

(** Only lowercase letters, digits and single hyphens, none leading or
    trailing. *)
Definition slug_shape (s : jsstring) : bool :=
  forallb slug_char s
  && no_double_hyphen s
  && negb (starts_with_hyphen s)
  && negb (starts_with_hyphen (rev s)).

(** A canonical 24-hour time: two digits, a colon, two digits, with the
    hour in 0..23 and the minute in 0..59. *)
Definition two_digits_in (lo hi a b : N) : bool :=
  is_digit a && is_digit b
  && (lo <=? 10 * (a - 48) + (b - 48)) && (10 * (a - 48) + (b - 48) <=? hi).

Definition canonical_time (s : jsstring) : bool :=
  match s with
  | [h1; h2; c; m1; m2] =>
      two_digits_in 0 23 h1 h2 && (c =? 58) && two_digits_in 0 59 m1 m2
  | _ => false
  end.

(** The three grammars of the time input, on the trimmed string. *)
Definition accepted_24h (s : jsstring) : bool :=
  match match_ re_hhmm (trim s) with
  | Some m => (Number_of_digits (group 1 m) <? 24)
              && (Number_of_digits (group 2 m) <? 60)
  | None => false
  end.
Definition accepted_12h (s : jsstring) : bool :=
  match match_ re_ampm (trim s) with Some _ => true | None => false end.
Definition accepted_datetime (H : host) (s : jsstring) : bool :=
  match Date_parse H (trim s) with Some _ => true | None => false end.

(** The code units of the date part of [toISOString]: digits, hyphen,
    plus sign. *)
Definition date_char (c : N) : bool := is_digit c || (c =? 45) || (c =? 43).

(** The address grammar of the Booking email.  An atom is a non-empty
    word of the permitted code units. *)
Definition atom_word (w : jsstring) : Prop :=
  w <> [] /\ forallb Booking.atext w = true.

(** Unquoted local part: atoms separated by dots. *)
Definition unquoted_local (l : jsstring) : Prop :=
  exists a atoms,
    l = a ++ List.concat (List.map (fun x => 46 :: x) atoms)
    /\ atom_word a /\ Forall atom_word atoms.

(** Quoted local part: a non-empty text without line terminators between
    double quotes. *)
Definition quoted_local (l : jsstring) : Prop :=
  exists inner,
    l = 34 :: inner ++ [34]
    /\ inner <> [] /\ forallb Booking.any_char inner = true.

(** Domain: one label or more, each followed by a dot, then a top-level
    segment of two code units or more. *)
Definition domain (dm : jsstring) : Prop :=
  exists labels tld,
    dm = List.concat (List.map (fun x => x ++ [46]) labels) ++ tld
    /\ labels <> [] /\ Forall atom_word labels
    /\ forallb Booking.atext tld = true /\ (2 <= length tld)%nat.

Definition email_grammar (v : jsstring) : Prop :=
  exists l dm,
    v = l ++ 64 :: dm
    /\ (unquoted_local l \/ quoted_local l)
    /\ domain dm.

(** The required String paths of an Event that are absent or blank. *)
Definition blank_fields (d : Event.doc) : list string :=
  List.filter (fun f => Event.blank (Event.get d f)) Event.requiredStringFields.


End Spec.

(** ** Sample data *)

Module Sample.

(** A host whose [Date.parse] accepts nothing and whose local time is
    UTC. *)
Definition utc_host : host := Host (fun s => s) (fun _ => None) (fun _ => 0%Z).

(** A host that reads every string as the epoch. *)
Definition epoch_host : host :=
  Host (fun s => s) (fun _ => Some 0%Z) (fun _ => 0%Z).

(** A stored Event with agenda [a] and the changed paths [paths]. *)
Definition meetup (a : option (list jsstring)) (paths : gset string)
    : Event.doc :=
  Event.Doc (Some (js "Rocq Meetup")) (Some (js "rocq-meetup"))
    (Some (js "An evening of proofs")) (Some (js "Talks and demos"))
    (Some (js "/images/rocq.png")) (Some (js "Room 4")) (Some (js "Paris"))
    (Some (js "2025-03-05")) (Some (js "18:30")) (Some (js "offline"))
    (Some (js "developers")) a (Some (js "The organizers"))
    (Some [js "proofs"]) paths.

(** A draft whose title is blank and whose description is missing. *)
Definition draft : Event.doc :=
  Event.Doc (Some (js "   ")) None None (Some (js "Talks and demos"))
    (Some (js "/images/rocq.png")) (Some (js "Room 4")) (Some (js "Paris"))
    (Some (js "2025-03-05")) (Some (js "18:30")) (Some (js "offline"))
    (Some (js "developers")) (Some [js "Doors open"])
    (Some (js "The organizers")) (Some [js "proofs"]) {[ "title"%string ]}.

Definition booking (ev : option Booking.ObjectId) : Booking.doc :=
  Booking.create utc_host 7 ev (Some (js " USER@Example.COM ")).

Definition one_event : gmap Booking.ObjectId Event.doc :=
  {[ 1 := meetup (Some [js "Doors open"]) ∅ ]}.

Definition registered : Booking.models :=
  {[ "Event"%string := Booking.model_of one_event ]}.

End Sample.

(** ** Notions used to describe the matcher *)

Module MatcherSpec.

(** Length of the longest prefix in class [p]. *)
Fixpoint span (p : N -> bool) (s : jsstring) : nat :=
  match s with
  | c :: s' => if p c then S (span p s') else O
  | [] => O
  end.

(** The states of [p*], longest first. *)
Fixpoint cls_star_states (p : N -> bool) (n : nat) (s : jsstring)
    (cs : list (nat * jsstring)) : list mstate :=
  match s with
  | c :: s' =>
      if p c then cls_star_states p (S n) s' cs ++ [MState n s cs]
      else [MState n s cs]
  | [] => [MState n s cs]
  end.

(** The pattern [r] matches [mlen p s] code units at index [p] of an
    input whose remainder is [s], and does not match there when that is
    zero. *)
Definition match_length (r : regex) (mlen : nat -> jsstring -> nat) : Prop :=
  forall p s,
    (mlen p s <= length s)%nat /\
    (mlen p s = O -> run r (MState p s []) = []) /\
    (mlen p s <> O ->
     exists st tl, run r (MState p s []) = st :: tl
                   /\ pos st = (p + mlen p s)%nat).

(** What it means for a pattern to match: [Matches r n w k] says that
    [r], at index [n] of the input, can consume [w] when [k] is what
    follows. *)
Inductive Matches : regex -> nat -> jsstring -> jsstring -> Prop :=
| M_Cls p n c k : p c = true -> Matches (Cls p) n [c] k
| M_Bol k : Matches Bol 0 [] k
| M_Eol n : Matches Eol n [] []
| M_Eps n k : Matches Eps n [] k
| M_Seq r1 r2 n w1 w2 k :
    Matches r1 n w1 (w2 ++ k) ->
    Matches r2 (n + length w1) w2 k ->
    Matches (Seq r1 r2) n (w1 ++ w2) k
| M_Alt_l r1 r2 n w k : Matches r1 n w k -> Matches (Alt r1 r2) n w k
| M_Alt_r r1 r2 n w k : Matches r2 n w k -> Matches (Alt r1 r2) n w k
| M_Star_nil r n k : Matches (Star r) n [] k
| M_Star_cons r n w1 w2 k :
    w1 <> [] ->
    Matches r n w1 (w2 ++ k) ->
    Matches (Star r) (n + length w1) w2 k ->
    Matches (Star r) n (w1 ++ w2) k
| M_Group g r n w k : Matches r n w k -> Matches (Group g r) n w k.

(** A pattern without [^] and [$]. *)
Fixpoint anchor_free (r : regex) : bool :=
  match r with
  | Cls _ | Eps => true
  | Bol | Eol => false
  | Seq r1 r2 | Alt r1 r2 => anchor_free r1 && anchor_free r2
  | Star r' | Group _ r' => anchor_free r'
  end.

(** The language of a pattern without anchors. *)
Fixpoint lang (r : regex) (w : jsstring) : Prop :=
  match r with
  | Cls p => exists c, w = [c] /\ p c = true
  | Bol | Eol => False
  | Eps => w = []
  | Seq r1 r2 => exists w1 w2, w = w1 ++ w2 /\ lang r1 w1 /\ lang r2 w2
  | Alt r1 r2 => lang r1 w \/ lang r2 w
  | Star r' =>
      exists ws, w = List.concat ws
                 /\ Forall (fun x => x <> [] /\ lang r' x) ws
  | Group _ r' => lang r' w
  end.

End MatcherSpec.
Import MatcherSpec.

(** ** lib/mongoose.js: the connection helper *)

Module Connection.

(** The connected Mongoose instance, by identity. *)
Definition Mongoose : Type := N.

(** The two variables of [process.env] the module reads. *)
Record process_env : Type := Env {
  env_MONGODB_URI : option jsstring;
  env_NEXT_PUBLIC_MONGODB_URI : option jsstring
}.

(** [a || b] for values that are a string or undefined. *)
Definition or_string (a b : option jsstring) : option jsstring :=
  if Event.present a then a else b.

Definition MONGODB_URI (e : process_env) : option jsstring :=
  or_string (env_MONGODB_URI e) (env_NEXT_PUBLIC_MONGODB_URI e).

Definition missing_uri_message : jsstring :=
  js "Please define the MONGODB_URI environment variable inside .env.local".

(** Evaluating the module: the connection string, or the error thrown when
    [!MONGODB_URI]. *)
Definition load (e : process_env) : jsstring + jsstring :=
  if Event.present (MONGODB_URI e) then inl (Event.or_empty (MONGODB_URI e))
  else inr missing_uri_message.

Record options : Type := Options {
  keepAlive : bool;
  connectTimeoutMS : Z
}.

(** The object [globalThis._mongoose], which [cached] aliases: the
    connection, and the promise of the attempt with the way it settles. *)
Record cache : Type := Cache {
  conn : option Mongoose;
  promise : option (Booking.settled Mongoose)
}.

(** [let cached = globalThis._mongoose; if (!cached) cached = ... ] *)
Definition init_cache (g : option cache) : cache :=
  match g with
  | Some c => c
  | None => Cache None None
  end.

(** The cache together with the calls made to [mongoose.connect], latest
    first. *)
Record world : Type := World {
  cached : cache;
  connect_calls : list (jsstring * options)
}.

Definition fresh : world := World (init_cache None) [].

Section WithDriver.

(** [mongoose.connect]: how the attempt settles, which may depend on how
    many attempts came before. *)
Variable connect : nat -> jsstring -> options -> Booking.settled Mongoose.
Variable uri : jsstring.

Definition connectToDatabase (w : world) : world * Booking.settled Mongoose :=
  match conn (cached w) with
  | Some c => (w, Booking.Resolved c)
  | None =>
      let '(p, calls) :=
        match promise (cached w) with
        | Some p => (p, connect_calls w)
        | None =>
            let options := Options true 10000 in
            (connect (length (connect_calls w)) uri options,
             (uri, options) :: connect_calls w)
        end in
      match p with
      | Booking.Resolved m =>
          (World (Cache (Some m) (Some p)) calls, Booking.Resolved m)
      | Booking.Rejected reason =>
          (World (Cache None (Some p)) calls, Booking.Rejected reason)
      end
  end.

(** What happens to the process: a call of [connectToDatabase], or a hot
    reload that evaluates the module again over the same global object. *)
Inductive step : Type :=
| Call
| Reload.

Definition reload (w : world) : world :=
  World (init_cache (Some (cached w))) (connect_calls w).

(** The results of the calls of a run, in order. *)
Fixpoint run_steps (steps : list step) (w : world)
    : world * list (Booking.settled Mongoose) :=
  match steps with
  | [] => (w, [])
  | Call :: rest =>
      let '(w1, r) := connectToDatabase w in
      let '(w2, rs) := run_steps rest w1 in
      (w2, r :: rs)
  | Reload :: rest => run_steps rest (reload w)
  end.

(** The states a run can reach: nothing attempted yet, or one attempt made,
    whose promise is in the cache, with the connection once it has
    resolved. *)
Definition attempted_once (w : world) : Prop :=
  let first := connect 0 uri (Options true 10000) in
  (cached w = Cache None None /\ connect_calls w = [])
  \/ (connect_calls w = [(uri, Options true 10000)]
      /\ promise (cached w) = Some first
      /\ (conn (cached w) = None
          \/ exists m, first = Booking.Resolved m /\ conn (cached w) = Some m)).

End WithDriver.

End Connection.

(** ** Further notions used to state properties of the code *)

Module Props.

(** A lowercase letter or a digit. *)
Definition alnum (c : N) : bool := is_lower c || is_digit c.

(** The ways of writing a 12-hour suffix that are tried: any casing, with
    or without one space before it. *)
Definition suffixes (letter : N) : list jsstring :=
  flat_map
    (fun sp =>
       flat_map
         (fun a => List.map (fun m => sp ++ [a; m]) [109; 77])
         [letter; letter - 32])
    [[]; [32]].

(** A 12-hour time as written: the hour, padded to two digits or not, a
    colon and the minute in two digits, or the hour alone. *)
Definition written_hours (h : N) : list jsstring :=
  [String_of_N h; padStart0 2 (String_of_N h)].
Definition written_times (h m : N) : list jsstring :=
  List.map (fun hs => hs ++ [58] ++ padStart0 2 (String_of_N m)) (written_hours h).

(** Equality of strings, decided. *)
Fixpoint string_eqb (a b : jsstring) : bool :=
  match a, b with
  | [], [] => true
  | x :: a', y :: b' => (x =? y) && string_eqb a' b'
  | _, _ => false
  end.

(** The numbers below [n]. *)
Definition below (n : nat) : list N := List.map N.of_nat (seq 0 n).

Definition digits : list N := List.map N.of_nat (seq 48 10).

(** Every string made of two digits, a colon and two digits. *)
Definition clock_strings : list jsstring :=
  flat_map (fun h1 => flat_map (fun h2 => flat_map (fun m1 =>
    List.map (fun m2 => [h1; h2; 58; m1; m2]) digits) digits) digits) digits.

(** The code units a domain may hold: those of an atom, and the dot. *)
Definition domain_char (c : N) : bool := Booking.atext c || (c =? 46).

End Props.

(** ** The calendar, as ECMAScript defines it *)

Module Calendar.

Local Open Scope Z_scope.

(** The day number of the first day of year [y]; day 0 is 1 January
    1970. *)
Definition DayFromYear (y : Z) : Z :=
  365 * (y - 1970) + (y - 1969) / 4 - (y - 1901) / 100 + (y - 1601) / 400.

Definition is_leap (y : Z) : bool :=
  ((y mod 4 =? 0) && negb (y mod 100 =? 0)) || (y mod 400 =? 0).

Definition days_in_month (y m : Z) : Z :=
  if m =? 2 then (if is_leap y then 29 else 28)
  else if (m =? 4) || (m =? 6) || (m =? 9) || (m =? 11) then 30
  else 31.

(** The days of the first [k] months of year [y]. *)
Fixpoint days_before (y : Z) (k : nat) : Z :=
  match k with
  | O => 0
  | S k' => days_before y k' + days_in_month y (Z.of_nat k)
  end.

(** The day number of day [d] of month [m] of year [y]. *)
Definition day_number (y m d : Z) : Z :=
  DayFromYear y + days_before y (Z.to_nat (m - 1)) + (d - 1).

Definition valid_date (y m d : Z) : bool :=
  (1 <=? m) && (m <=? 12) && (1 <=? d) && (d <=? days_in_month y m).

(** Reading a number written in decimal digits. *)
Definition digit_value (c : N) : Z := Z.of_N (c - 48).
Definition read_number (cs : list N) : option Z :=
  if forallb is_digit cs
  then Some (fold_left (fun acc c => 10 * acc + digit_value c) cs 0)
  else None.

Definition read_fields (sign : Z) (year month day : list N)
    : option (Z * Z * Z) :=
  match read_number year, read_number month, read_number day with
  | Some y, Some m, Some d => Some (sign * y, m, d)
  | _, _, _ => None
  end.

(** Reading a date written year-month-day: YYYY-MM-DD, or a sign and a
    year of six digits. *)
Definition read_date (s : jsstring) : option (Z * Z * Z) :=
  match s with
  | [y1; y2; y3; y4; h1; m1; m2; h2; d1; d2] =>
      if ((h1 =? 45) && (h2 =? 45))%N
      then read_fields 1 [y1; y2; y3; y4] [m1; m2] [d1; d2]
      else None
  | [sg; y1; y2; y3; y4; y5; y6; h1; m1; m2; h2; d1; d2] =>
      if (((sg =? 43) || (sg =? 45)) && (h1 =? 45) && (h2 =? 45))%N
      then read_fields (if (sg =? 45)%N then -1 else 1)
             [y1; y2; y3; y4; y5; y6] [m1; m2] [d1; d2]
      else None
  | _ => None
  end.

(** The form YYYY-MM-DD: ten code units, digits but for the two
    hyphens. *)
Definition is_ymd (s : jsstring) : bool :=
  match s with
  | [y1; y2; y3; y4; h1; m1; m2; h2; d1; d2] =>
      (forallb is_digit [y1; y2; y3; y4; m1; m2; d1; d2]
       && (h1 =? 45) && (h2 =? 45))%N
  | _ => false
  end.

(** [f] holds from [lo] up to [lo + 2 ^ k], as far as below [hi]. *)
Fixpoint all_below (hi : Z) (k : nat) (lo : Z) (f : Z -> bool) : bool :=
  if hi <=? lo then true
  else match k with
       | O => f lo
       | S k' =>
           all_below hi k' lo f && all_below hi k' (lo + 2 ^ Z.of_nat k') f
       end.

(** The day [z - 719468] is given a valid date that has this day
    number. *)
Definition check_day (z : Z) : bool :=
  let days := z - 719468 in
  let '(y, m, d) := civil_from_days days in
  valid_date y m d && (day_number y m d =? days).

End Calendar.

(** ** The required fields of an Event, as the specification lists them *)

Module Fields.

(** Absent, or blank after trimming: nothing but white space. *)
Definition is_blank (o : option jsstring) : bool :=
  match o with
  | None => true
  | Some s => forallb is_space s
  end.

(** The eleven required String fields of a document, by name. *)
Definition required_strings (d : Event.doc) : list (string * option jsstring) :=
  [ ("title", Event.title d); ("description", Event.description d);
    ("overview", Event.overview d); ("image", Event.image d);
    ("venue", Event.venue d); ("location", Event.location d);
    ("date", Event.date d); ("time", Event.time d); ("mode", Event.mode d);
    ("audience", Event.audience d); ("organizer", Event.organizer d) ]%string.

End Fields.

(** ** More sample data *)

Module Sample2.

(** A host that reads the date below as ECMAScript's date-time string
    format requires, and nothing else; local time is UTC. *)
Definition iso_host : host :=
  Host (fun s => s)
    (fun s =>
       if Props.string_eqb s (js "2025-03-05") then Some 1741132800000%Z
       else None)
    (fun _ => 0%Z).

(** A host nine hours east of Greenwich: a day in words is read as
    midnight, local time, of that day, and a date-time with an expanded
    year and the zone Z as the format requires. *)
Definition tokyo_host : host :=
  Host (fun s => s)
    (fun s =>
       if Props.string_eqb s (js "March 5, 2025") then Some 1741100400000%Z
       else if Props.string_eqb s (js "+010000-01-01T12:00:00Z")
            then Some 253402344000000%Z
            else None)
    (fun _ => 32400000%Z).

(** An Event of which only [date] was changed, to [date]. *)
Definition dated_meetup (date : jsstring) : Event.doc :=
  Event.Doc (Some (js "Rocq Meetup")) (Some (js "rocq-meetup"))
    (Some (js "An evening of proofs")) (Some (js "Talks and demos"))
    (Some (js "/images/rocq.png")) (Some (js "Room 4")) (Some (js "Tokyo"))
    (Some date) (Some (js "18:30")) (Some (js "offline"))
    (Some (js "developers")) (Some [js "Doors open"])
    (Some (js "The organizers")) (Some [js "proofs"]) {[ "date"%string ]}.

End Sample2.

(** * Facts about the matcher *)

(** Splits a conjunction without trying to close its parts. *)
Ltac split_all := repeat match goal with |- _ /\ _ => split end.

Section Matcher.

Lemma skipn_span p s : skipn (span p s) s = drop_while p s.
Proof.
  induction s as [|c s IH]; simpl; [reflexivity|].
  destruct (p c); simpl; auto.
Qed.

Lemma span_le p s : (span p s <= length s)%nat.
Proof.
  induction s as [|c s IH]; simpl; [lia|]. destruct (p c); simpl; lia.
Qed.

Lemma star_loop_cls p fuel : forall n s cs,
  (length s <= fuel)%nat ->
  star_loop (run (Cls p)) fuel (MState n s cs) = cls_star_states p n s cs.
Proof.
  induction fuel as [|fuel IH]; intros n s cs Hlen.
  - destruct s; simpl in *; [reflexivity|lia].
  - destruct s as [|c s]; simpl; [reflexivity|].
    destruct (p c); simpl; [|reflexivity].
    replace (n <? S n)%nat with true by (symmetry; apply Nat.ltb_lt; lia).
    rewrite app_nil_r, IH by (simpl in Hlen; lia). reflexivity.
Qed.


Lemma run_plus_cls p n s cs :
  run (Plus (Cls p)) (MState n s cs) =
  match s with
  | c :: s' => if p c then cls_star_states p (S n) s' cs else []
  | [] => []
  end.
Proof.
  unfold Plus.
  change (run (Seq (Cls p) (Star (Cls p))) (MState n s cs))
    with (flat_map (run (Star (Cls p))) (run (Cls p) (MState n s cs))).
  destruct s as [|c s]; simpl; [reflexivity|].
  destruct (p c); simpl; [|reflexivity].
  rewrite app_nil_r. apply star_loop_cls. lia.
Qed.

Lemma cls_star_states_hd p : forall s n cs,
  exists tl, cls_star_states p n s cs
             = MState (n + span p s) (drop_while p s) cs :: tl.
Proof.
  induction s as [|c s IH]; intros n cs; simpl.
  - exists []. rewrite Nat.add_0_r. reflexivity.
  - destruct (p c) eqn:Hc.
    + destruct (IH (S n) cs) as [tl Htl]. rewrite Htl.
      exists (tl ++ [MState n (c :: s) cs]).
      replace (n + S (span p s))%nat with (S n + span p s)%nat by lia.
      reflexivity.
    + exists []. rewrite Nat.add_0_r. reflexivity.
Qed.

Lemma cls_star_states_eol p : forall s n cs,
  flat_map (run Eol) (cls_star_states p n s cs) =
  if forallb p s then [MState (n + length s) [] cs] else [].
Proof.
  induction s as [|c s IH]; intros n cs; simpl.
  - rewrite Nat.add_0_r. reflexivity.
  - destruct (p c); simpl; [|reflexivity].
    rewrite flat_map_app, IH. simpl. rewrite app_nil_r.
    replace (n + S (length s))%nat with (S n + length s)%nat by lia.
    reflexivity.
Qed.

Lemma replace_from_skip r rep : forall k s p,
  (k <= length s)%nat ->
  replace_from r rep p k s = replace_from r rep (p + k) 0 (skipn k s).
Proof.
  induction k as [|k IH]; intros s p Hk.
  - rewrite Nat.add_0_r. reflexivity.
  - destruct s as [|c s]; simpl in Hk; [lia|].
    simpl. rewrite IH by lia. f_equal. lia.
Qed.

Lemma replace_from_step r rep mlen :
  match_length r mlen ->
  forall p s,
    replace_from r rep p 0 s =
    match s with
    | [] => []
    | c :: s' =>
        if (mlen p s =? 0)%nat then c :: replace_from r rep (S p) 0 s'
        else rep ++ replace_from r rep (p + mlen p s) 0 (skipn (mlen p s) s)
    end.
Proof.
  intros Hm p s. destruct (Hm p s) as (Hle & H0 & H1).
  destruct s as [|c s].
  - simpl in Hle. assert (E : mlen p [] = O) by lia.
    simpl. rewrite (H0 E). reflexivity.
  - destruct (Nat.eqb_spec (mlen p (c :: s)) 0) as [E|E].
    + simpl. rewrite (H0 E). reflexivity.
    + destruct (H1 E) as (st & tl & Hrun & Hpos).
      simpl. rewrite Hrun, Hpos.
      replace (p + mlen p (c :: s) =? p)%nat with false
        by (symmetry; apply Nat.eqb_neq; lia).
      f_equal.
      rewrite replace_from_skip by (simpl in Hle; lia).
      replace (S p + (p + mlen p (c :: s) - p - 1))%nat
        with (p + mlen p (c :: s))%nat by lia.
      f_equal.
      destruct (mlen p (c :: s)) as [|k]; [lia|].
      simpl. f_equal. lia.
Qed.

End Matcher.

(** * Lists of code units *)

Section Strings.

Variable q : N -> bool.

Lemma drop_while_app (a b : jsstring) :
  drop_while q (a ++ b) =
  if forallb q a then drop_while q b else drop_while q a ++ b.
Proof.
  induction a as [|c a IH]; simpl; [reflexivity|].
  destruct (q c); simpl; auto.
Qed.

Lemma forallb_rev (s : jsstring) : forallb q (rev s) = forallb q s.
Proof.
  induction s as [|c s IH]; simpl; [reflexivity|].
  rewrite forallb_app, IH. simpl. rewrite andb_true_r. apply andb_comm.
Qed.

Lemma drop_while_all (s : jsstring) :
  forallb q s = true -> drop_while q s = [].
Proof.
  induction s as [|c s IH]; simpl; [reflexivity|].
  destruct (q c); simpl; [exact IH|discriminate].
Qed.

Lemma drop_while_end_cons c (s : jsstring) :
  drop_while_end q (c :: s) =
  if forallb q (c :: s) then [] else c :: drop_while_end q s.
Proof.
  unfold drop_while_end. simpl rev. rewrite drop_while_app, forallb_rev.
  simpl forallb. destruct (forallb q s) eqn:Hs.
  - rewrite andb_true_r. simpl. destruct (q c); [reflexivity|].
    rewrite drop_while_all by (rewrite forallb_rev; exact Hs). reflexivity.
  - rewrite andb_false_r, rev_app_distr. reflexivity.
Qed.


Lemma drop_while_head c (s : jsstring) :
  q c = false -> drop_while q (c :: s) = c :: s.
Proof. intros Hc. simpl. rewrite Hc. reflexivity. Qed.

Lemma drop_while_suffix (s : jsstring) :
  exists a, s = a ++ drop_while q s.
Proof.
  induction s as [|c s [a Ha]]; simpl.
  - exists []. reflexivity.
  - destruct (q c).
    + exists (c :: a). simpl. f_equal. exact Ha.
    + exists []. reflexivity.
Qed.

Lemma drop_while_not_first (s : jsstring) :
  match drop_while q s with c :: _ => q c = false | [] => True end.
Proof.
  induction s as [|c s IH]; simpl; [exact I|].
  destruct (q c) eqn:Hc; [exact IH|exact Hc].
Qed.

End Strings.

(** * Slug derivation *)

(** Closes the three parts of [match_length] once the run is explicit. *)
Ltac ml_cases :=
  split; [simpl; lia|];
  split; intros Hml;
  [ first [reflexivity | discriminate | exfalso; simpl in *; lia]
  | first [ exfalso; apply Hml; reflexivity
          | eexists _, _; split; [reflexivity|simpl; lia] ] ].

Section SlugFacts.

Import Spec.

Lemma match_length_cls p :
  match_length (Cls p)
    (fun _ s => match s with c :: _ => if p c then 1%nat else O | [] => O end).
Proof.
  intros n s. destruct s as [|c s]; simpl; [|destruct (p c)]; ml_cases.
Qed.

Lemma match_length_plus p :
  match_length (Plus (Cls p)) (fun _ s => span p s).
Proof.
  intros n s. rewrite run_plus_cls.
  destruct s as [|c s]; simpl; [ml_cases|].
  pose proof (span_le p s) as Hle.
  destruct (cls_star_states_hd p s (S n) []) as [tl Htl]. rewrite Htl.
  destruct (p c); ml_cases.
Qed.

(** Where [/^-+|-+$/] matches: a run of hyphens at index 0, or a run
    that reaches the end of the input. *)
Lemma match_length_edge :
  match_length re_edge_hyphens
    (fun n s =>
       match n with
       | O => span is_hyphen s
       | S _ => if forallb is_hyphen s then length s else O
       end).
Proof.
  intros n s.
  assert (Hrun : run re_edge_hyphens (MState n s []) =
                 match n with
                 | O => run (Plus (Chr 45)) (MState n s [])
                 | S _ => []
                 end
                 ++ flat_map (run Eol) (run (Plus (Chr 45)) (MState n s []))).
  { unfold re_edge_hyphens.
    change (run (Alt (Seq Bol (Plus (Chr 45))) (Seq (Plus (Chr 45)) Eol))
              (MState n s []))
      with (flat_map (run (Plus (Chr 45))) (run Bol (MState n s []))
            ++ flat_map (run Eol) (run (Plus (Chr 45)) (MState n s []))).
    destruct n; simpl run at 2; simpl flat_map at 1;
      [rewrite app_nil_r|]; reflexivity. }
  rewrite Hrun. unfold Chr.
  change (fun x : N => x =? 45) with is_hyphen.
  rewrite run_plus_cls.
  destruct s as [|c s]; [destruct n; simpl; ml_cases|].
  pose proof (span_le is_hyphen s) as Hle.
  destruct (cls_star_states_hd is_hyphen s (S n) []) as [tl Htl].
  destruct n as [|n]; simpl.
  - destruct (is_hyphen c); simpl; [rewrite Htl|]; ml_cases.
  - destruct (is_hyphen c); simpl; [rewrite cls_star_states_eol|];
      [destruct (forallb is_hyphen s)|]; simpl; ml_cases.
Qed.

(** [replace(/[^a-z0-9\s-]/g, '')] keeps the code units of the class. *)
Lemma replace_not_slug_char s :
  replace_g re_not_slug_char [] s = List.filter slug_keep s.
Proof.
  unfold replace_g, re_not_slug_char.
  enough (Hn : forall n, replace_from (Cls (fun c => negb (slug_keep c))) [] n 0 s
                         = List.filter slug_keep s) by apply Hn.
  induction s as [|c s IH]; intros n;
    rewrite (replace_from_step _ _ _ (match_length_cls _)); [reflexivity|].
  simpl. destruct (slug_keep c); simpl; rewrite IH; reflexivity.
Qed.

Lemma collapse_runs_cons p c s :
  p c = true ->
  collapse_runs p (c :: s) = 45 :: collapse_runs p (drop_while p s).
Proof.
  revert c. induction s as [|c' s IH]; intros c Hc.
  - simpl. rewrite Hc. reflexivity.
  - change (collapse_runs p (c :: c' :: s))
      with (if p c then if p c' then collapse_runs p (c' :: s)
                        else 45 :: collapse_runs p (c' :: s)
            else c :: collapse_runs p (c' :: s)).
    rewrite Hc. simpl drop_while.
    destruct (p c') eqn:Hc'; [apply IH; exact Hc'|reflexivity].
Qed.

Lemma collapse_runs_skip p c s :
  p c = false -> collapse_runs p (c :: s) = c :: collapse_runs p s.
Proof. intros Hc. simpl. rewrite Hc. reflexivity. Qed.

(** [replace(/p+/g, '-')] turns each run into one hyphen. *)
Lemma replace_plus_collapse p s :
  replace_g (Plus (Cls p)) [45] s = collapse_runs p s.
Proof.
  unfold replace_g.
  enough (Hn : forall k s n, (length s <= k)%nat ->
               replace_from (Plus (Cls p)) [45] n 0 s = collapse_runs p s)
    by (apply (Hn (length s)); lia).
  clear s. induction k as [|k IH]; intros s n Hle.
  - destruct s; simpl in Hle; [reflexivity|lia].
  - rewrite (replace_from_step _ _ _ (match_length_plus p)).
    destruct s as [|c s]; [reflexivity|]. simpl in Hle.
    simpl span. destruct (p c) eqn:Hc.
    + simpl Nat.eqb. cbv iota. rewrite collapse_runs_cons by exact Hc.
      simpl skipn. rewrite skipn_span. simpl app. f_equal.
      apply IH. destruct (drop_while_suffix p s) as [a Ha].
      apply (f_equal (@length N)) in Ha. rewrite length_app in Ha. lia.
    + simpl Nat.eqb. cbv iota. rewrite collapse_runs_skip by exact Hc.
      f_equal. apply IH. lia.
Qed.

Lemma replace_edge_inner s : forall n,
  replace_from re_edge_hyphens [] (S n) 0 s = drop_while_end is_hyphen s.
Proof.
  induction s as [|c s IH]; intros n;
    rewrite (replace_from_step _ _ _ match_length_edge); [reflexivity|].
  rewrite drop_while_end_cons.
  destruct (forallb is_hyphen (c :: s)) eqn:Hall.
  - simpl Nat.eqb. cbv iota. rewrite skipn_all.
    rewrite (replace_from_step _ _ _ match_length_edge). reflexivity.
  - simpl Nat.eqb. cbv iota. rewrite IH. reflexivity.
Qed.

(** [replace(/^-+|-+$/g, '')] strips the hyphens at both ends. *)
Lemma replace_edge_strip s :
  replace_g re_edge_hyphens [] s = strip_hyphens s.
Proof.
  unfold replace_g, strip_hyphens.
  rewrite (replace_from_step _ _ _ match_length_edge).
  destruct s as [|c s]; [reflexivity|].
  simpl span. simpl drop_while. destruct (is_hyphen c) eqn:Hc.
  - simpl Nat.eqb. cbv iota. simpl skipn. rewrite skipn_span. simpl app.
    simpl Nat.add. apply replace_edge_inner.
  - simpl Nat.eqb. cbv iota. rewrite replace_edge_inner.
    rewrite drop_while_end_cons. simpl forallb. rewrite Hc. reflexivity.
Qed.

Lemma slugify_derive_slug H T : slugify H T = derive_slug H T.
Proof.
  unfold slugify, derive_slug.
  rewrite replace_edge_strip. f_equal.
  unfold re_hyphens, re_spaces, Chr.
  rewrite !replace_plus_collapse. f_equal. f_equal.
  rewrite replace_not_slug_char.
  apply filter_ext. intros c. unfold stripped, slug_keep.
  rewrite negb_involutive. reflexivity.
Qed.

End SlugFacts.

Section SlugShape.

Import Spec.

Lemma no_double_hyphen_cons c s :
  no_double_hyphen (c :: s) =
  negb (is_hyphen c && starts_with_hyphen s) && no_double_hyphen s.
Proof. destruct s as [|c' s]; simpl; [rewrite andb_false_r|]; reflexivity. Qed.

Lemma slug_keep_not_space c :
  slug_keep c = true -> is_space c = false -> slug_char c = true.
Proof.
  unfold slug_keep, slug_char. intros Hk Hs. rewrite Hs in Hk.
  rewrite orb_false_r in Hk. exact Hk.
Qed.

Lemma collapse_spaces_chars s :
  forallb slug_keep s = true ->
  forallb slug_char (collapse_runs is_space s) = true.
Proof.
  induction s as [|c s IH]; intros Hs; [reflexivity|].
  simpl in Hs. apply andb_true_iff in Hs. destruct Hs as [Hc Hs].
  specialize (IH Hs). simpl.
  destruct (is_space c) eqn:Hsp.
  - destruct s as [|c' s]; [reflexivity|].
    destruct (is_space c'); [exact IH|]. simpl. exact IH.
  - simpl. rewrite (slug_keep_not_space c Hc Hsp). exact IH.
Qed.

Lemma collapse_hyphens_chars s :
  forallb slug_char s = true ->
  forallb slug_char (collapse_runs is_hyphen s) = true.
Proof.
  induction s as [|c s IH]; intros Hs; [reflexivity|].
  simpl in Hs. apply andb_true_iff in Hs. destruct Hs as [Hc Hs].
  specialize (IH Hs). simpl.
  destruct (is_hyphen c) eqn:Hh.
  - destruct s as [|c' s]; [reflexivity|].
    destruct (is_hyphen c'); [exact IH|]. simpl. exact IH.
  - simpl. rewrite Hc. exact IH.
Qed.

Lemma collapse_hyphens_head s :
  starts_with_hyphen (collapse_runs is_hyphen s) = starts_with_hyphen s.
Proof.
  destruct s as [|c s]; [reflexivity|].
  destruct (is_hyphen c) eqn:Hc.
  - rewrite collapse_runs_cons by exact Hc. simpl. rewrite Hc. reflexivity.
  - rewrite collapse_runs_skip by exact Hc. reflexivity.
Qed.

Lemma collapse_hyphens_single s :
  no_double_hyphen (collapse_runs is_hyphen s) = true.
Proof.
  remember (length s) as k eqn:Hk.
  assert (Hle : (length s <= k)%nat) by lia. clear Hk.
  revert s Hle. induction k as [|k IH]; intros s Hle.
  - destruct s; simpl in Hle; [reflexivity|lia].
  - destruct s as [|c s]; [reflexivity|]. simpl in Hle.
    destruct (is_hyphen c) eqn:Hc.
    + rewrite collapse_runs_cons by exact Hc.
      rewrite no_double_hyphen_cons, collapse_hyphens_head.
      assert (Hd : (length (drop_while is_hyphen s) <= k)%nat).
      { destruct (drop_while_suffix is_hyphen s) as [a Ha].
        apply (f_equal (@length N)) in Ha. rewrite length_app in Ha. lia. }
      rewrite (IH _ Hd).
      pose proof (drop_while_not_first is_hyphen s) as Hf.
      destruct (drop_while is_hyphen s) as [|c' s']; simpl;
        [|rewrite Hf]; reflexivity.
    + rewrite collapse_runs_skip by exact Hc.
      rewrite no_double_hyphen_cons, Hc. simpl. apply IH. lia.
Qed.

Lemma drop_while_chars p s :
  forallb slug_char s = true -> forallb slug_char (drop_while p s) = true.
Proof.
  intros Hs. destruct (drop_while_suffix p s) as [a Ha].
  rewrite Ha, forallb_app in Hs. apply andb_true_iff in Hs. apply Hs.
Qed.

Lemma drop_while_single p s :
  no_double_hyphen s = true -> no_double_hyphen (drop_while p s) = true.
Proof.
  induction s as [|c s IH]; intros Hs; [reflexivity|].
  simpl drop_while. destruct (p c); [|exact Hs].
  rewrite no_double_hyphen_cons in Hs. apply andb_true_iff in Hs. apply IH, Hs.
Qed.

Lemma drop_while_end_chars p s :
  forallb slug_char s = true -> forallb slug_char (drop_while_end p s) = true.
Proof.
  intros Hs. unfold drop_while_end. rewrite forallb_rev.
  apply drop_while_chars. rewrite forallb_rev. exact Hs.
Qed.

Lemma drop_while_end_head s :
  starts_with_hyphen s = false ->
  starts_with_hyphen (drop_while_end is_hyphen s) = false.
Proof.
  destruct s as [|c s]; [reflexivity|]. intros Hc.
  rewrite drop_while_end_cons.
  destruct (forallb is_hyphen (c :: s)); [reflexivity|exact Hc].
Qed.

Lemma drop_while_end_single s :
  no_double_hyphen s = true ->
  no_double_hyphen (drop_while_end is_hyphen s) = true.
Proof.
  induction s as [|c s IH]; intros Hs; [reflexivity|].
  rewrite drop_while_end_cons.
  destruct (forallb is_hyphen (c :: s)); [reflexivity|].
  rewrite no_double_hyphen_cons in Hs |- *.
  apply andb_true_iff in Hs. destruct Hs as [Hc Hs].
  rewrite (IH Hs), andb_true_r.
  destruct (is_hyphen c); [|reflexivity].
  simpl in Hc |- *. apply negb_true_iff in Hc.
  rewrite (drop_while_end_head s Hc). reflexivity.
Qed.

Lemma drop_while_starts s :
  starts_with_hyphen (drop_while is_hyphen s) = false.
Proof.
  pose proof (drop_while_not_first is_hyphen s) as Hf.
  destruct (drop_while is_hyphen s); [reflexivity|exact Hf].
Qed.

(** Every derived slug has the shape of a slug. *)
Lemma derive_slug_shape H T : slug_shape (derive_slug H T) = true.
Proof.
  unfold derive_slug, slug_shape, strip_hyphens.
  set (kept := List.filter _ _).
  assert (Hkept : forallb slug_keep kept = true).
  { apply forallb_forall. intros c Hc. apply filter_In in Hc.
    destruct Hc as [_ Hc]. unfold stripped in Hc.
    rewrite negb_involutive in Hc. exact Hc. }
  set (hy := collapse_runs is_hyphen (collapse_runs is_space kept)).
  assert (Hchars : forallb slug_char hy = true)
    by (apply collapse_hyphens_chars, collapse_spaces_chars, Hkept).
  assert (Hsingle : no_double_hyphen hy = true)
    by apply collapse_hyphens_single.
  repeat (apply andb_true_iff; split).
  - apply drop_while_end_chars, drop_while_chars, Hchars.
  - apply drop_while_end_single, drop_while_single, Hsingle.
  - apply negb_true_iff, drop_while_end_head, drop_while_starts.
  - apply negb_true_iff. unfold drop_while_end.
    rewrite rev_involutive. apply drop_while_starts.
Qed.

Lemma drop_while_none p (s : jsstring) :
  forallb (fun c => negb (p c)) s = true -> drop_while p s = s.
Proof.
  destruct s as [|c s]; [reflexivity|]. simpl. intros Hs.
  apply andb_true_iff in Hs. destruct Hs as [Hc _].
  apply negb_true_iff in Hc. rewrite Hc. reflexivity.
Qed.

Lemma drop_while_end_none p (s : jsstring) :
  forallb (fun c => negb (p c)) s = true -> drop_while_end p s = s.
Proof.
  intros Hs. unfold drop_while_end.
  rewrite drop_while_none by (rewrite forallb_rev; exact Hs).
  apply rev_involutive.
Qed.

Lemma collapse_runs_none p (s : jsstring) :
  forallb (fun c => negb (p c)) s = true -> collapse_runs p s = s.
Proof.
  induction s as [|c s IH]; intros Hs; [reflexivity|].
  simpl in Hs. apply andb_true_iff in Hs. destruct Hs as [Hc Hs].
  apply negb_true_iff in Hc. rewrite collapse_runs_skip by exact Hc.
  rewrite IH by exact Hs. reflexivity.
Qed.

Lemma collapse_hyphens_fixed s :
  no_double_hyphen s = true -> collapse_runs is_hyphen s = s.
Proof.
  induction s as [|c s IH]; intros Hs; [reflexivity|].
  rewrite no_double_hyphen_cons in Hs. apply andb_true_iff in Hs.
  destruct Hs as [Hc Hs]. specialize (IH Hs).
  destruct (is_hyphen c) eqn:Hh.
  - simpl in Hc. apply negb_true_iff in Hc.
    rewrite collapse_runs_cons by exact Hh.
    unfold is_hyphen in Hh. apply N.eqb_eq in Hh. subst c.
    destruct s as [|c' s]; [reflexivity|]. simpl in Hc.
    rewrite drop_while_head by exact Hc. rewrite IH. reflexivity.
  - rewrite collapse_runs_skip by exact Hh. rewrite IH. reflexivity.
Qed.

Lemma slug_char_facts c :
  slug_char c = true ->
  is_ascii c = true /\ is_upper c = false /\ is_space c = false
  /\ slug_keep c = true.
Proof.
  intros Hc.
  assert (Hr : 97 <= c <= 122 \/ 48 <= c <= 57 \/ c = 45).
  { revert Hc. unfold slug_char, is_lower, is_digit, is_hyphen, in_range.
    rewrite !orb_true_iff, !andb_true_iff, !N.leb_le, N.eqb_eq. tauto. }
  assert (Hsp : is_space c = false).
  { apply not_true_is_false. unfold is_space, in_range.
    rewrite !orb_true_iff, !andb_true_iff, !N.leb_le, !N.eqb_eq. lia. }
  repeat split.
  - apply N.ltb_lt. lia.
  - apply not_true_is_false. unfold is_upper, in_range.
    rewrite !andb_true_iff, !N.leb_le. lia.
  - exact Hsp.
  - revert Hc. unfold slug_char, slug_keep. rewrite Hsp.
    rewrite orb_false_r. tauto.
Qed.

(** A string that has the shape of a slug is its own slug. *)
Lemma derive_slug_fixed H s : slug_shape s = true -> derive_slug H s = s.
Proof.
  unfold slug_shape. intros Hs.
  apply andb_true_iff in Hs. destruct Hs as [Hs Hlast].
  apply andb_true_iff in Hs. destruct Hs as [Hs Hfirst].
  apply andb_true_iff in Hs. destruct Hs as [Hchars Hsingle].
  apply negb_true_iff in Hlast, Hfirst.
  assert (Hall : forall c, In c s ->
            is_ascii c = true /\ is_upper c = false /\ is_space c = false
            /\ slug_keep c = true).
  { intros c Hc. apply slug_char_facts.
    rewrite forallb_forall in Hchars. apply Hchars, Hc. }
  assert (Hnospace : forallb (fun c => negb (is_space c)) s = true).
  { apply forallb_forall. intros c Hc. apply negb_true_iff, Hall, Hc. }
  unfold derive_slug, toLowerCase.
  replace (forallb is_ascii s) with true
    by (symmetry; apply forallb_forall; intros c Hc; apply Hall, Hc).
  replace (List.map lower_ascii s) with s.
  2:{ rewrite <- (map_id s) at 1. apply map_ext_in. intros c Hc.
      unfold lower_ascii. destruct (Hall c Hc) as (_ & Hu & _).
      rewrite Hu. reflexivity. }
  unfold trim.
  rewrite (drop_while_none is_space s Hnospace).
  rewrite (drop_while_end_none is_space s Hnospace).
  replace (List.filter (fun c => negb (stripped c)) s) with s.
  2:{ symmetry. apply forallb_filter_id. apply forallb_forall.
      intros c Hc. unfold stripped. rewrite negb_involutive.
      apply (Hall c Hc). }
  rewrite (collapse_runs_none is_space s Hnospace).
  rewrite (collapse_hyphens_fixed s Hsingle).
  unfold strip_hyphens.
  replace (drop_while is_hyphen s) with s.
  2:{ destruct s as [|c s]; [reflexivity|]. simpl in Hfirst |- *.
      rewrite Hfirst. reflexivity. }
  unfold drop_while_end.
  replace (drop_while is_hyphen (rev s)) with (rev s).
  2:{ destruct (rev s) as [|c r]; [reflexivity|]. simpl in Hlast |- *.
      rewrite Hlast. reflexivity. }
  apply rev_involutive.
Qed.

End SlugShape.

(** C2. For every title [T] the slug computed by [slugify] is the result of
    the steps the specification lists: lowercase, trim, strip every code
    unit that is not a lowercase letter, digit, white space or hyphen,
    collapse each run of white space into one hyphen, collapse runs of
    hyphens into one, strip leading and trailing hyphens.  The title
    "Hello, World!!" gives "hello-world". *)
Theorem slugify_refines_spec (H : host) :
  (forall T, slugify H T = Spec.derive_slug H T)
  /\ slugify H (js "Hello, World!!") = js "hello-world".
Proof.
  split; [apply slugify_derive_slug|].
  vm_compute. reflexivity.
Qed.

(** C8. Slug derivation is idempotent, and every derived slug holds only
    lowercase letters, digits and single hyphens, with no hyphen at either
    end. *)
Theorem slugify_idempotent_and_shaped (H : host) (T : jsstring) :
  slugify H (slugify H T) = slugify H T
  /\ Spec.slug_shape (slugify H T) = true.
Proof.
  rewrite !slugify_derive_slug.
  pose proof (derive_slug_shape H T) as Hshape.
  split; [apply derive_slug_fixed|]; exact Hshape.
Qed.

(** * Time normalisation *)

Section TimeFacts.

Variable H : host.


Lemma range_below (n : nat) (x : N) :
  x < N.of_nat n -> In x (List.map N.of_nat (seq 0 n)).
Proof.
  intros Hx. apply in_map_iff. exists (N.to_nat x).
  split; [apply N2Nat.id|]. apply in_seq. lia.
Qed.

(** The template renders an hour below 24 and a minute below 60 in
    canonical form. *)
Lemma hh_mm_canonical h m :
  h < 24 -> m < 60 ->
  Spec.canonical_time (hh_mm (String_of_N h) (String_of_N m)) = true.
Proof.
  intros Hh Hm.
  assert (Hall :
    forallb (fun h => forallb (fun m =>
       Spec.canonical_time (hh_mm (String_of_N h) (String_of_N m)))
         (List.map N.of_nat (seq 0 60))) (List.map N.of_nat (seq 0 24)) = true)
    by (vm_compute; reflexivity).
  rewrite forallb_forall in Hall.
  specialize (Hall h (range_below 24 h Hh)).
  rewrite forallb_forall in Hall.
  exact (Hall m (range_below 60 m Hm)).
Qed.

(** Inputs of the strict 24-hour grammar are rendered in canonical
    form. *)
Lemma normalizeTime_24h_canonical s :
  Spec.accepted_24h s = true ->
  Spec.canonical_time (normalizeTime_string H s) = true.
Proof.
  unfold Spec.accepted_24h, normalizeTime_string.
  destruct (match_ re_hhmm (trim s)) as [m|]; [|discriminate].
  intros Hacc. apply andb_true_iff in Hacc. destruct Hacc as [Hh Hm].
  rewrite Hh, Hm.
  replace (0 <=? Number_of_digits (group 1 m)) with true
    by (symmetry; apply N.leb_le; lia).
  replace (0 <=? Number_of_digits (group 2 m)) with true
    by (symmetry; apply N.leb_le; lia).
  cbv [andb].
  apply hh_mm_canonical; apply N.ltb_lt; assumption.
Qed.

(** So are inputs of the 12-hour grammar whose hour is at most 12 and
    whose minute is below 60. *)
Lemma normalizeTime_12h_canonical s m :
  Spec.accepted_24h s = false ->
  match_ re_ampm (trim s) = Some m ->
  Number_of_digits (group 1 m) <= 12 ->
  match capture 2 m with Some w => Number_of_digits w | None => 0 end < 60 ->
  Spec.canonical_time (normalizeTime_string H s) = true.
Proof.
  unfold Spec.accepted_24h, normalizeTime_string.
  intros H24 Hm Hh Hmin. rewrite Hm.
  assert (Hgoal : Spec.canonical_time
            (hh_mm
               (String_of_N
                  (if Number_of_digits (group 1 m) =? 12
                   then if test re_pm (group 3 m) then 12 else 0
                   else if test re_pm (group 3 m)
                        then Number_of_digits (group 1 m) + 12
                        else Number_of_digits (group 1 m)))
               (String_of_N
                  match capture 2 m with
                  | Some w => Number_of_digits w
                  | None => 0
                  end)) = true).
  { apply hh_mm_canonical; [|exact Hmin].
    destruct (N.eqb_spec (Number_of_digits (group 1 m)) 12);
      destruct (test re_pm (group 3 m)); lia. }
  destruct (match_ re_hhmm (trim s)) as [m'|]; [|exact Hgoal].
  replace (0 <=? Number_of_digits (group 1 m')) with true
    by (symmetry; apply N.leb_le; lia).
  replace (0 <=? Number_of_digits (group 2 m')) with true
    by (symmetry; apply N.leb_le; lia).
  cbn [andb]. rewrite andb_true_r.
  rewrite H24. exact Hgoal.
Qed.

(** So are inputs that only [Date.parse] reads, as a time value in
    range. *)
Lemma normalizeTime_datetime_canonical s t :
  Spec.accepted_24h s = false ->
  Spec.accepted_12h s = false ->
  Date_parse H (trim s) = Some t ->
  TimeClip t = Some t ->
  Spec.canonical_time (normalizeTime_string H s) = true.
Proof.
  unfold Spec.accepted_24h, Spec.accepted_12h, normalizeTime_string.
  intros H24 H12 Hp Hclip.
  destruct (match_ re_ampm (trim s)); [discriminate|].
  rewrite Hp. unfold Date_of_number. rewrite Hclip.
  assert (Hgoal : Spec.canonical_time
            (hh_mm (String_of_number (getHours H (Some t)))
                   (String_of_number (getMinutes H (Some t)))) = true).
  { unfold getHours, getMinutes, option_map, String_of_number, String_of_Z.
    assert (Hh : (0 <= HourFromTime (LocalTime H t) < 24)%Z)
      by (apply Z.mod_pos_bound; lia).
    assert (Hm : (0 <= MinFromTime (LocalTime H t) < 60)%Z)
      by (apply Z.mod_pos_bound; lia).
    replace (HourFromTime (LocalTime H t) <? 0)%Z with false
      by (symmetry; apply Z.ltb_ge; lia).
    replace (MinFromTime (LocalTime H t) <? 0)%Z with false
      by (symmetry; apply Z.ltb_ge; lia).
    apply hh_mm_canonical; lia. }
  destruct (match_ re_hhmm (trim s)) as [m'|]; [|exact Hgoal].
  replace (0 <=? Number_of_digits (group 1 m')) with true
    by (symmetry; apply N.leb_le; lia).
  replace (0 <=? Number_of_digits (group 2 m')) with true
    by (symmetry; apply N.leb_le; lia).
  cbn [andb]. rewrite andb_true_r.
  rewrite H24. exact Hgoal.
Qed.

End TimeFacts.

(** C3, at an input of the 12-hour grammar.  The strict 24-hour branch of
    [normalizeTime] checks the ranges of hour and minute; the am/pm branch
    does not: "7:75 pm" is rendered "19:75", "13pm" is rendered "25:00" and
    "99:99pm" is rendered "111:99", none of which is a canonical time. *)
Theorem normalizeTime_12h_unchecked (H : host) :
  Spec.accepted_12h (js "7:75 pm") = true
  /\ normalizeTime H (VString (js "7:75 pm")) = VString (js "19:75")
  /\ Spec.canonical_time (js "19:75") = false
  /\ Spec.accepted_12h (js "13pm") = true
  /\ normalizeTime H (VString (js "13pm")) = VString (js "25:00")
  /\ Spec.canonical_time (js "25:00") = false
  /\ Spec.accepted_12h (js "99:99pm") = true
  /\ normalizeTime H (VString (js "99:99pm")) = VString (js "111:99")
  /\ Spec.canonical_time (js "111:99") = false.
Proof. split_all; vm_compute; reflexivity. Qed.

(** C5. [normalizeTime] maps "9:00 AM", "09:00" and "21:00" to "09:00",
    "09:00" and "21:00"; "25:00", which the first two grammars reject, is
    returned unchanged when [Date.parse] does not read it either. *)
Theorem normalizeTime_examples (H : host) :
  normalizeTime H (VString (js "9:00 AM")) = VString (js "09:00")
  /\ normalizeTime H (VString (js "09:00")) = VString (js "09:00")
  /\ normalizeTime H (VString (js "21:00")) = VString (js "21:00")
  /\ (Date_parse H (js "25:00") = None ->
      normalizeTime H (VString (js "25:00")) = VString (js "25:00")).
Proof.
  split; [vm_compute; reflexivity|].
  split; [vm_compute; reflexivity|].
  split; [vm_compute; reflexivity|].
  intros Hparse.
  change (normalizeTime H (VString (js "25:00")))
    with (VString (normalizeTime_string H (js "25:00"))).
  unfold normalizeTime_string.
  replace (trim (js "25:00")) with (js "25:00") by (vm_compute; reflexivity).
  replace (match_ re_hhmm (js "25:00"))
    with (Some [(2%nat, js "00"); (1%nat, js "25")]) by (vm_compute; reflexivity).
  replace (match_ re_ampm (js "25:00")) with (@None (list (nat * jsstring)))
    by (vm_compute; reflexivity).
  rewrite Hparse. reflexivity.
Qed.

Lemma normalizeTime_examples_witness :
  normalizeTime Sample.utc_host (VString (js "25:00")) = VString (js "25:00").
Proof.
  apply (proj2 (proj2 (proj2 (normalizeTime_examples Sample.utc_host)))).
  reflexivity.
Defined.

(** C10. An input that is not a string, or is the empty string, is returned
    as it is, whatever the host: nothing is parsed. *)
Theorem normalizeTime_passthrough (H : host) (v : jsvalue) :
  typeof_is_string v = false \/ v = VString [] ->
  normalizeTime H v = v.
Proof.
  intros [Hv|Hv].
  - destruct v; try reflexivity; try discriminate.
    + unfold normalizeTime. simpl. rewrite orb_true_r. reflexivity.
    + unfold normalizeTime. simpl. rewrite orb_true_r. reflexivity.
  - subst v. reflexivity.
Qed.

Lemma normalizeTime_passthrough_witness :
  normalizeTime Sample.epoch_host VUndefined = VUndefined
  /\ normalizeTime Sample.epoch_host (VNumber (Some 900%Z)) = VNumber (Some 900%Z)
  /\ normalizeTime Sample.epoch_host (VString []) = VString [].
Proof.
  split_all.
  - apply (normalizeTime_passthrough Sample.epoch_host VUndefined).
    left. reflexivity.
  - apply (normalizeTime_passthrough Sample.epoch_host (VNumber (Some 900%Z))).
    left. reflexivity.
  - apply (normalizeTime_passthrough Sample.epoch_host (VString [])).
    right. reflexivity.
Defined.

(** * The Event pre-save hook *)

Section EventFacts.

Import Event.
Variable H : host.

(** What the hook leaves alone. *)
Lemma pre_save_frame (d : doc) :
  let d' := fst (pre_save H d) in
  title d' = title d /\ description d' = description d
  /\ overview d' = overview d /\ image d' = image d
  /\ venue d' = venue d /\ location d' = location d
  /\ mode d' = mode d /\ audience d' = audience d
  /\ organizer d' = organizer d
  /\ agenda d' = agenda d /\ tags d' = tags d
  /\ modifiedPaths d' = modifiedPaths d.
Proof.
  unfold pre_save. cbn [fst].
  unfold normalize_time, normalize_date, generate_slug.
  repeat match goal with
         | |- context [if ?b then _ else _] => destruct b
         | |- context [match ?x with _ => _ end] => destruct x
         end; split_all; reflexivity.
Qed.

Lemma slug_after_normalize (d : doc) :
  slug (normalize_time H (normalize_date H d)) = slug d.
Proof.
  unfold normalize_time, normalize_date.
  repeat match goal with
         | |- context [if ?b then _ else _] => destruct b
         | |- context [match ?x with _ => _ end] => destruct x
         end; reflexivity.
Qed.

Lemma date_untouched (d : doc) :
  present (date d) = false -> date (fst (pre_save H d)) = date d.
Proof.
  intros Hd. unfold pre_save. cbn [fst].
  assert (Hn : forall x, date (normalize_time H x) = date x).
  { intros x. unfold normalize_time.
    repeat match goal with
           | |- context [if ?b then _ else _] => destruct b
           | |- context [match ?x with _ => _ end] => destruct x
           end; reflexivity. }
  rewrite Hn. unfold normalize_date.
  replace (date (generate_slug H d)) with (date d)
    by (unfold generate_slug; destruct (_ || _); reflexivity).
  rewrite Hd, andb_false_r.
  unfold generate_slug; destruct (_ || _); reflexivity.
Qed.

Lemma time_untouched (d : doc) :
  present (time d) = false -> time (fst (pre_save H d)) = time d.
Proof.
  intros Hd. unfold pre_save. cbn [fst]. unfold normalize_time.
  replace (time (normalize_date H (generate_slug H d))) with (time d).
  2:{ unfold normalize_date, generate_slug.
      repeat match goal with
             | |- context [if ?b then _ else _] => destruct b
             | |- context [match ?x with _ => _ end] => destruct x
             end; reflexivity. }
  rewrite Hd, andb_false_r.
  unfold normalize_date, generate_slug.
  repeat match goal with
         | |- context [if ?b then _ else _] => destruct b
         | |- context [match ?x with _ => _ end] => destruct x
         end; reflexivity.
Qed.

Lemma check_required_first (d : doc) (fs : list string) :
  check_required d fs =
  match List.filter (fun f => blank (get d f)) fs with
  | g :: _ => Some g
  | [] => None
  end.
Proof.
  induction fs as [|f fs IH]; simpl; [reflexivity|].
  destruct (blank (get d f)); [reflexivity|exact IH].
Qed.

(** The verdict of the hook on the document it has normalised. *)
Lemma validate_required_cases (d : doc) :
  validate_required d =
  match Spec.blank_fields d with
  | g :: _ => NextError (required_message g)
  | [] =>
      if empty_array (agenda d) then NextError agenda_message
      else if empty_array (tags d) then NextError tags_message
      else Next
  end.
Proof.
  unfold validate_required, Spec.blank_fields.
  rewrite check_required_first.
  destruct (List.filter _ _); reflexivity.
Qed.

End EventFacts.

(** C4. When the title is not among the changed fields and a slug is
    present, the hook leaves the slug as it is; so does, in particular, an
    update that changes only the date. *)
Theorem slug_is_sticky (H : host) (d : Event.doc) :
  (Event.isModified d "title" = false ->
   Event.present (Event.slug d) = true ->
   Event.slug (fst (Event.pre_save H d)) = Event.slug d)
  /\ (Event.modifiedPaths d = {[ "date"%string ]} ->
      Event.present (Event.slug d) = true ->
      Event.slug (fst (Event.pre_save H d)) = Event.slug d).
Proof.
  assert (Hmain : Event.isModified d "title" = false ->
                  Event.present (Event.slug d) = true ->
                  Event.slug (fst (Event.pre_save H d)) = Event.slug d).
  { intros Ht Hs. unfold Event.pre_save. cbn [fst].
    rewrite slug_after_normalize. unfold Event.generate_slug.
    rewrite Ht, Hs. reflexivity. }
  split; [exact Hmain|].
  intros Hpaths. apply Hmain.
  unfold Event.isModified. rewrite Hpaths.
  apply bool_decide_eq_false. intros Hin.
  apply elem_of_singleton in Hin. discriminate Hin.
Qed.

Lemma slug_is_sticky_witness :
  Event.slug
    (fst (Event.pre_save Sample.epoch_host
            (Sample.meetup (Some [js "Doors open"]) {[ "date"%string ]})))
  = Some (js "rocq-meetup").
Proof.
  apply (proj2 (slug_is_sticky Sample.epoch_host
                  (Sample.meetup (Some [js "Doors open"]) {[ "date"%string ]}))).
  - reflexivity.
  - reflexivity.
Defined.

Section FieldFacts.

Lemma drop_while_nil q (s : jsstring) :
  drop_while q s = [] -> forallb q s = true.
Proof.
  induction s as [|c s IH]; simpl; [reflexivity|].
  destruct (q c); [exact IH|discriminate].
Qed.

(** A string trims to nothing exactly when it holds white space only. *)
Lemma trim_nil_forallb (s : jsstring) :
  match trim s with [] => true | _ :: _ => false end = forallb is_space s.
Proof.
  unfold trim. destruct (forallb is_space s) eqn:Hall.
  - rewrite (drop_while_all is_space s Hall). reflexivity.
  - pose proof (drop_while_not_first is_space s) as Hf.
    destruct (drop_while is_space s) as [|c t] eqn:Hd.
    + apply drop_while_nil in Hd. congruence.
    + rewrite drop_while_end_cons. simpl forallb. rewrite Hf. reflexivity.
Qed.

Lemma blank_is_blank (o : option jsstring) :
  Event.blank o = Fields.is_blank o.
Proof.
  destruct o as [[|c s]|]; try reflexivity.
  unfold Event.blank. cbn [Event.present negb orb Event.or_empty].
  apply trim_nil_forallb.
Qed.

Lemma required_strings_get (d : Event.doc) :
  Fields.required_strings d
  = List.map (fun f => (f, Event.get d f)) Event.requiredStringFields.
Proof. reflexivity. Qed.

Lemma blank_fields_in (d : Event.doc) (g : string) :
  In g (Spec.blank_fields d) <->
  exists w, In (g, w) (Fields.required_strings d) /\ Fields.is_blank w = true.
Proof.
  unfold Spec.blank_fields. rewrite filter_In, required_strings_get. split.
  - intros [Hg Hb]. exists (Event.get d g). split.
    + apply in_map_iff. exists g. split; [reflexivity|exact Hg].
    + rewrite <- blank_is_blank. exact Hb.
  - intros (w & Hin & Hb). apply in_map_iff in Hin.
    destruct Hin as (f & Hf & Hin). injection Hf as -> <-.
    split; [exact Hin|]. rewrite blank_is_blank. exact Hb.
Qed.

Lemma blank_fields_nil (d : Event.doc) :
  Spec.blank_fields d = [] <->
  forall f v, In (f, v) (Fields.required_strings d) ->
              Fields.is_blank v = false.
Proof.
  split.
  - intros Hnil f v Hin. destruct (Fields.is_blank v) eqn:Hb; [|reflexivity].
    assert (Hf : In f (Spec.blank_fields d))
      by (apply blank_fields_in; exists v; split; assumption).
    rewrite Hnil in Hf. contradiction.
  - intros Hall. destruct (Spec.blank_fields d) as [|g gs] eqn:Hb;
      [reflexivity|exfalso].
    assert (Hg : In g (Spec.blank_fields d)) by (rewrite Hb; left; reflexivity).
    apply blank_fields_in in Hg. destruct Hg as (w & Hin & Hw).
    rewrite (Hall g w Hin) in Hw. discriminate.
Qed.

Lemma empty_array_true (a : option (list jsstring)) :
  Event.empty_array a = true <-> a = None \/ a = Some [].
Proof.
  destruct a as [[|x l]|]; simpl; split; auto; try discriminate.
  intros [E|E]; discriminate E.
Qed.

Lemma empty_array_false (a : option (list jsstring)) :
  Event.empty_array a = false <-> exists x l, a = Some (x :: l).
Proof.
  destruct a as [[|x l]|]; simpl; split; try discriminate; eauto.
  - intros (x & l & E). discriminate E.
  - intros (x & l & E). discriminate E.
Qed.

(** The verdict of the hook, in the vocabulary of the specification. *)
Lemma hook_verdict (H : host) (d : Event.doc) :
  let d' := fst (Event.pre_save H d) in
  let out := snd (Event.pre_save H d) in
  (forall f v, In (f, v) (Fields.required_strings d') ->
               Fields.is_blank v = true ->
     exists g w, In (g, w) (Fields.required_strings d')
                 /\ Fields.is_blank w = true
                 /\ out = NextError (js (g ++ " is required and cannot be empty")))
  /\ ((forall f v, In (f, v) (Fields.required_strings d') ->
                   Fields.is_blank v = false) ->
      (Event.agenda d = None \/ Event.agenda d = Some [] ->
       out = NextError (js "agenda must be a non-empty array of strings"))
      /\ ((exists x l, Event.agenda d = Some (x :: l)) ->
          (Event.tags d = None \/ Event.tags d = Some [] ->
           out = NextError (js "tags must be a non-empty array of strings"))
          /\ ((exists x l, Event.tags d = Some (x :: l)) -> out = Next))).
Proof.
  intros d' out.
  assert (Hout : out = Event.validate_required d') by reflexivity.
  rewrite validate_required_cases in Hout.
  destruct (pre_save_frame H d)
    as (_ & _ & _ & _ & _ & _ & _ & _ & _ & Fa & Ft & _).
  fold d' in Fa, Ft. rewrite Fa, Ft in Hout.
  split.
  - intros f v Hin Hb.
    assert (Hf : In f (Spec.blank_fields d'))
      by (apply blank_fields_in; exists v; split; assumption).
    destruct (Spec.blank_fields d') as [|g gs] eqn:Hbf; [contradiction|].
    assert (Hg : In g (Spec.blank_fields d')) by (rewrite Hbf; left; reflexivity).
    apply blank_fields_in in Hg. destruct Hg as (w & Hgin & Hw).
    exists g, w. split_all; [exact Hgin|exact Hw|exact Hout].
  - intros Hall. apply blank_fields_nil in Hall. rewrite Hall in Hout.
    split.
    + intros Ha. apply empty_array_true in Ha. rewrite Ha in Hout. exact Hout.
    + intros Ha. apply empty_array_false in Ha. rewrite Ha in Hout. split.
      * intros Ht. apply empty_array_true in Ht. rewrite Ht in Hout. exact Hout.
      * intros Ht. apply empty_array_false in Ht. rewrite Ht in Hout. exact Hout.
Qed.

End FieldFacts.

(** C6. The hook rejects the write, with an error that names an offending
    field, when one of title, description, overview, image, venue,
    location, date, time, mode, audience, organizer is absent or blank
    after trimming: the error is "<field> is required and cannot be empty"
    for a field that is blank.  When none is, a missing or empty agenda is
    rejected with "agenda must be a non-empty array of strings", then
    missing or empty tags with "tags must be a non-empty array of
    strings"; otherwise the write goes through.  The thirteen messages
    differ from one another.  The check reads the document as normalised,
    which differs from the candidate in slug, date and time only, an absent
    or empty date or time staying so.  An Event with an empty agenda is
    rejected with the agenda error, and the same Event with one agenda item
    passes. *)
Theorem required_fields_enforced (H : host) (d : Event.doc) :
  let d' := fst (Event.pre_save H d) in
  let out := snd (Event.pre_save H d) in
  (forall f v, In (f, v) (Fields.required_strings d') ->
               Fields.is_blank v = true ->
     exists g w, In (g, w) (Fields.required_strings d')
                 /\ Fields.is_blank w = true
                 /\ out = NextError (js (g ++ " is required and cannot be empty")))
  /\ ((forall f v, In (f, v) (Fields.required_strings d') ->
                   Fields.is_blank v = false) ->
      (Event.agenda d = None \/ Event.agenda d = Some [] ->
       out = NextError (js "agenda must be a non-empty array of strings"))
      /\ ((exists x l, Event.agenda d = Some (x :: l)) ->
          (Event.tags d = None \/ Event.tags d = Some [] ->
           out = NextError (js "tags must be a non-empty array of strings"))
          /\ ((exists x l, Event.tags d = Some (x :: l)) -> out = Next)))
  /\ NoDup (List.map (fun p => js (fst p ++ " is required and cannot be empty"))
              (Fields.required_strings d')
            ++ [js "agenda must be a non-empty array of strings";
                js "tags must be a non-empty array of strings"])
  /\ (Event.title d' = Event.title d
      /\ Event.description d' = Event.description d
      /\ Event.overview d' = Event.overview d
      /\ Event.image d' = Event.image d
      /\ Event.venue d' = Event.venue d
      /\ Event.location d' = Event.location d
      /\ Event.mode d' = Event.mode d
      /\ Event.audience d' = Event.audience d
      /\ Event.organizer d' = Event.organizer d
      /\ (Event.date d = None \/ Event.date d = Some [] ->
          Event.date d' = Event.date d)
      /\ (Event.time d = None \/ Event.time d = Some [] ->
          Event.time d' = Event.time d))
  /\ snd (Event.pre_save H (Sample.meetup (Some []) {[ "agenda"%string ]}))
     = NextError (js "agenda must be a non-empty array of strings")
  /\ snd (Event.pre_save H
            (Sample.meetup (Some [js "Doors open"]) {[ "agenda"%string ]}))
     = Next.
Proof.
  intros d' out.
  destruct (hook_verdict H d) as [Hblank Hrest].
  destruct (pre_save_frame H d)
    as (F1 & F2 & F3 & F4 & F5 & F6 & F7 & F8 & F9 & _).
  split; [exact Hblank|]. split; [exact Hrest|].
  split.
  { cbn [Fields.required_strings List.map fst app].
    apply (bool_decide_unpack _). vm_compute. exact I. }
  split.
  { split_all; try assumption.
    - intros Hd. apply date_untouched.
      destruct Hd as [-> | ->]; reflexivity.
    - intros Ht. apply time_untouched.
      destruct Ht as [-> | ->]; reflexivity. }
  split; vm_compute; reflexivity.
Qed.

Lemma required_fields_enforced_witness :
  (exists g w,
     In (g, w) (Fields.required_strings
                  (fst (Event.pre_save Sample.utc_host Sample.draft)))
     /\ Fields.is_blank w = true
     /\ snd (Event.pre_save Sample.utc_host Sample.draft)
        = NextError (js (g ++ " is required and cannot be empty")))
  /\ snd (Event.pre_save Sample.utc_host
            (Sample.meetup None {[ "agenda"%string ]}))
     = NextError (js "agenda must be a non-empty array of strings").
Proof.
  split.
  - apply (proj1 (required_fields_enforced Sample.utc_host Sample.draft)
             "description"%string None).
    + vm_compute. tauto.
    + reflexivity.
  - assert (Hall : forall f v,
              In (f, v) (Fields.required_strings
                           (fst (Event.pre_save Sample.utc_host
                                   (Sample.meetup None {[ "agenda"%string ]})))) ->
              Fields.is_blank v = false).
    { intros f v Hin. vm_compute in Hin.
      repeat (destruct Hin as [Hin|Hin];
              [injection Hin as <- <-; vm_compute; reflexivity|]).
      contradiction. }
    apply (proj1 (proj1 (proj2 (required_fields_enforced Sample.utc_host
                                  (Sample.meetup None {[ "agenda"%string ]})))
                    Hall)).
    left. reflexivity.
Defined.

(** * The Booking pre-save hook *)

Section BookingFacts.

Import Booking.

(** A write that the hook refuses leaves the collection as it was. *)
Lemma save_refused (ms : models) (bookings : gmap ObjectId doc) (b : doc) :
  pre_save ms b <> Next -> fst (save ms bookings b) = bookings.
Proof.
  intros Hno. unfold save.
  destruct (validate b); [|reflexivity].
  destruct (pre_save ms b); [contradiction|reflexivity].
Qed.

Lemma save_stores_only_on_success (ms : models)
    (bookings : gmap ObjectId doc) (b : doc) :
  snd (save ms bookings b) <> Saved -> fst (save ms bookings b) = bookings.
Proof.
  unfold save. destruct (validate b); [|reflexivity].
  destruct (pre_save ms b); simpl; [contradiction|reflexivity].
Qed.

End BookingFacts.

(** C1. The pre-save check of a Booking fails with its own error in each of
    three cases, taken in the order of the code: no eventId; an eventId but
    no registered Event model; an eventId and a registered Event collection
    that holds no document with that identifier, for which the message is
    "Referenced eventId does not exist".  The three errors differ, and in
    each case the Booking collection is left as it was. *)
Theorem booking_reference_check (ms : Booking.models)
    (bookings : gmap Booking.ObjectId Booking.doc) (b : Booking.doc) :
  (Booking.eventId b = None ->
   Booking.pre_save ms b = NextError (js "eventId is required")
   /\ fst (Booking.save ms bookings b) = bookings)
  /\ (forall id, Booking.eventId b = Some id ->
      ms !! "Event"%string = None ->
      Booking.pre_save ms b = NextError (js "Event model is not registered")
      /\ fst (Booking.save ms bookings b) = bookings)
  /\ (forall id events, Booking.eventId b = Some id ->
      ms !! "Event"%string = Some (Booking.model_of events) ->
      events !! id = None ->
      Booking.pre_save ms b = NextError (js "Referenced eventId does not exist")
      /\ fst (Booking.save ms bookings b) = bookings)
  /\ js "eventId is required" <> js "Event model is not registered"
  /\ js "eventId is required" <> js "Referenced eventId does not exist"
  /\ js "Event model is not registered" <> js "Referenced eventId does not exist".
Proof.
  assert (Hcase : forall m, Booking.pre_save ms b = NextError m ->
            Booking.pre_save ms b = NextError m
            /\ fst (Booking.save ms bookings b) = bookings).
  { intros m Hm. split; [exact Hm|].
    apply save_refused. rewrite Hm. discriminate. }
  split_all.
  - intros He. apply Hcase. unfold Booking.pre_save. rewrite He. reflexivity.
  - intros id He Hm. apply Hcase. unfold Booking.pre_save.
    rewrite He, Hm. reflexivity.
  - intros id events He Hm Hid. apply Hcase. unfold Booking.pre_save.
    rewrite He, Hm. simpl. rewrite Hid.
    rewrite bool_decide_eq_false_2; [reflexivity|].
    intros [x Hx]. discriminate Hx.
  - vm_compute. discriminate.
  - vm_compute. discriminate.
  - vm_compute. discriminate.
Qed.

Lemma booking_reference_check_witness :
  (Booking.pre_save Sample.registered (Sample.booking None)
   = NextError (js "eventId is required")
   /\ fst (Booking.save Sample.registered ∅ (Sample.booking None)) = ∅)
  /\ (Booking.pre_save ∅ (Sample.booking (Some 1))
      = NextError (js "Event model is not registered")
      /\ fst (Booking.save ∅ ∅ (Sample.booking (Some 1))) = ∅)
  /\ (Booking.pre_save Sample.registered (Sample.booking (Some 2))
      = NextError (js "Referenced eventId does not exist")
      /\ fst (Booking.save Sample.registered ∅ (Sample.booking (Some 2))) = ∅).
Proof.
  split_all.
  - apply (proj1 (booking_reference_check Sample.registered ∅ (Sample.booking None))).
    reflexivity.
  - apply (proj1 (booking_reference_check Sample.registered ∅ (Sample.booking None))).
    reflexivity.
  - apply (proj1 (proj2 (booking_reference_check ∅ ∅ (Sample.booking (Some 1)))) 1).
    + reflexivity.
    + reflexivity.
  - apply (proj1 (proj2 (booking_reference_check ∅ ∅ (Sample.booking (Some 1)))) 1).
    + reflexivity.
    + reflexivity.
  - apply (proj1 (proj2 (proj2 (booking_reference_check Sample.registered ∅
                                  (Sample.booking (Some 2))))) 2 Sample.one_event).
    + reflexivity.
    + reflexivity.
    + reflexivity.
  - apply (proj1 (proj2 (proj2 (booking_reference_check Sample.registered ∅
                                  (Sample.booking (Some 2))))) 2 Sample.one_event).
    + reflexivity.
    + reflexivity.
    + reflexivity.
Defined.

(** * Date normalisation *)

Section DateFacts.

Local Open Scope Z_scope.

Lemma civil_from_days_range days :
  let '(_, m, d) := civil_from_days days in 1 <= m <= 12 /\ 1 <= d <= 31.
Proof.
  unfold civil_from_days.
  set (z := days + 719468).
  set (doe := z - z / 146097 * 146097).
  assert (Hdoe : 0 <= doe < 146097)
    by (subst doe; Z.div_mod_to_equations; lia).
  set (yoe := (doe - doe / 1460 + doe / 36524 - doe / 146096) / 365).
  set (doy := doe - (365 * yoe + yoe / 4 - yoe / 100)).
  assert (Hdoy : 0 <= doy <= 365)
    by (subst doy yoe; Z.div_mod_to_equations; lia).
  set (mp := (5 * doy + 2) / 153).
  assert (Hmp : 0 <= mp <= 11 /\ 1 <= doy - (153 * mp + 2) / 5 + 1 <= 31)
    by (subst mp; Z.div_mod_to_equations; lia).
  destruct Hmp as [Hmp Hd]. split; [|exact Hd].
  destruct (mp <? 10) eqn:E; [apply Z.ltb_lt in E|apply Z.ltb_ge in E]; lia.
Qed.

Lemma digit_char x : is_digit (Z.to_N (48 + x mod 10)) = true.
Proof.
  assert (Hx : 0 <= x mod 10 < 10) by (apply Z.mod_pos_bound; lia).
  unfold is_digit, in_range.
  apply andb_true_iff. split; apply N.leb_le; lia.
Qed.

Lemma fixed_digits_digits k : forall n,
  forallb is_digit (fixed_digits k n) = true.
Proof.
  induction k as [|k IH]; intros n; [reflexivity|].
  simpl. rewrite forallb_app, IH. simpl. rewrite digit_char. reflexivity.
Qed.

Lemma iso_date_chars t : forallb Spec.date_char (iso_date t) = true.
Proof.
  assert (Hd : forall k n, forallb Spec.date_char (fixed_digits k n) = true).
  { intros k n. apply forallb_forall. intros c Hc.
    pose proof (fixed_digits_digits k n) as Hk.
    rewrite forallb_forall in Hk. unfold Spec.date_char.
    rewrite (Hk c Hc). reflexivity. }
  assert (Hy : forall y, forallb Spec.date_char (iso_year y) = true).
  { intros y. unfold iso_year.
    destruct ((0 <=? y) && (y <=? 9999)); [apply Hd|].
    cbn [forallb]. rewrite Hd. destruct (y <? 0); reflexivity. }
  unfold iso_date. destruct (civil_from_days (Day t)) as [[y m] d].
  rewrite !forallb_app, !Hd, Hy. reflexivity.
Qed.

Lemma date_char_facts c :
  Spec.date_char c = true -> (c =? 84)%N = false /\ is_space c = false.
Proof.
  unfold Spec.date_char, is_digit, in_range.
  rewrite !orb_true_iff, !andb_true_iff, !N.leb_le, !N.eqb_eq. intros Hc.
  split.
  - apply N.eqb_neq. lia.
  - apply not_true_is_false. unfold is_space, in_range.
    rewrite !orb_true_iff, !andb_true_iff, !N.leb_le, !N.eqb_eq. lia.
Qed.

Lemma split_first_app sep (a b : jsstring) :
  forallb (fun c => negb (c =? sep)%N) a = true ->
  split_first sep (a ++ sep :: b) = a.
Proof.
  induction a as [|c a IH]; simpl.
  - intros _. rewrite N.eqb_refl. reflexivity.
  - intros Ha. apply andb_true_iff in Ha. destruct Ha as [Hc Ha].
    apply negb_true_iff in Hc. rewrite Hc, IH by exact Ha. reflexivity.
Qed.

(** [toISOString().split('T')[0]], trimmed by the setter of the path, is
    the date part. *)
Lemma split_iso_date t : trim (split_first 84 (toISOString t)) = iso_date t.
Proof.
  pose proof (iso_date_chars t) as Hchars. rewrite forallb_forall in Hchars.
  unfold toISOString.
  change (iso_date t ++ [84%N] ++ ?x) with (iso_date t ++ 84%N :: x).
  rewrite split_first_app
    by (apply forallb_forall; intros c Hc; apply negb_true_iff;
        apply date_char_facts, Hchars, Hc).
  assert (Hns : forallb (fun c => negb (is_space c)) (iso_date t) = true)
    by (apply forallb_forall; intros c Hc; apply negb_true_iff;
        apply date_char_facts, Hchars, Hc).
  unfold trim. rewrite (drop_while_none is_space _ Hns).
  apply drop_while_end_none, Hns.
Qed.

End DateFacts.

Section DateHook.

Import Event.
Variable H : host.

Lemma date_after_hook (d : doc) :
  date (fst (pre_save H d)) =
  if isModified d "date" && present (date d)
  then match Date_of_string H (or_empty (date d)) with
       | Some t => Some (iso_date t)
       | None => date d
       end
  else date d.
Proof.
  unfold pre_save. cbn [fst].
  assert (Hn : forall x, date (normalize_time H x) = date x).
  { intros x. unfold normalize_time.
    repeat match goal with
           | |- context [if ?b then _ else _] => destruct b
           | |- context [match ?x with _ => _ end] => destruct x
           end; reflexivity. }
  rewrite Hn.
  assert (Hg : date (generate_slug H d) = date d
               /\ isModified (generate_slug H d) "date" = isModified d "date")
    by (unfold generate_slug; destruct (_ || _); split; reflexivity).
  destruct Hg as [Hg1 Hg2].
  unfold normalize_date. rewrite Hg1, Hg2.
  destruct (isModified d "date" && present (date d)); [|exact Hg1].
  destruct (Date_of_string H (or_empty (date d))); [|exact Hg1].
  simpl. rewrite split_iso_date. reflexivity.
Qed.

End DateHook.

(** * The calendar *)

Section CalendarFacts.

Import Calendar.
Local Open Scope Z_scope.

Lemma all_below_spec hi k : forall lo f,
  all_below hi k lo f = true ->
  forall z, lo <= z < lo + 2 ^ Z.of_nat k -> z < hi -> f z = true.
Proof.
  induction k as [|k IH]; intros lo f Hall z Hz Hhi.
  - cbn [all_below] in Hall. simpl in Hz.
    destruct (Z.leb_spec hi lo); [lia|].
    replace z with lo by lia. exact Hall.
  - cbn [all_below] in Hall.
    destruct (Z.leb_spec hi lo); [lia|].
    apply andb_true_iff in Hall. destruct Hall as [H1 H2].
    assert (Hp : 2 ^ Z.of_nat (S k) = 2 * 2 ^ Z.of_nat k)
      by (rewrite Nat2Z.inj_succ, Z.pow_succ_r by lia; reflexivity).
    assert (Hpos : 0 < 2 ^ Z.of_nat k) by (apply Z.pow_pos_nonneg; lia).
    destruct (Z_lt_ge_dec z (lo + 2 ^ Z.of_nat k)).
    + apply (IH lo f H1); lia.
    + apply (IH _ f H2); lia.
Qed.

(** The 146097 days of one cycle of 400 years, checked one by one. *)
Lemma check_cycle : all_below 146097 18 0 check_day = true.
Proof. vm_cast_no_check (eq_refl true). Qed.

Lemma is_leap_shift y k : is_leap (y + 400 * k) = is_leap y.
Proof.
  unfold is_leap.
  replace ((y + 400 * k) mod 4) with (y mod 4)
    by (Z.div_mod_to_equations; lia).
  replace ((y + 400 * k) mod 100) with (y mod 100)
    by (Z.div_mod_to_equations; lia).
  replace ((y + 400 * k) mod 400) with (y mod 400)
    by (Z.div_mod_to_equations; lia).
  reflexivity.
Qed.

Lemma DayFromYear_shift y k :
  DayFromYear (y + 400 * k) = DayFromYear y + 146097 * k.
Proof. unfold DayFromYear. Z.div_mod_to_equations. lia. Qed.

Lemma days_before_shift y k n : days_before (y + 400 * k) n = days_before y n.
Proof.
  induction n as [|n IH]; [reflexivity|].
  cbn [days_before]. rewrite IH. unfold days_in_month.
  rewrite is_leap_shift. reflexivity.
Qed.

Lemma civil_from_days_shift days k :
  civil_from_days (days + 146097 * k) =
  let '(y, m, d) := civil_from_days days in (y + 400 * k, m, d).
Proof.
  unfold civil_from_days. cbv zeta.
  assert (E1 : (days + 146097 * k + 719468) / 146097
               = (days + 719468) / 146097 + k)
    by (Z.div_mod_to_equations; lia).
  rewrite E1.
  set (era := (days + 719468) / 146097).
  replace (days + 146097 * k + 719468 - (era + k) * 146097)
    with (days + 719468 - era * 146097) by lia.
  set (doe := days + 719468 - era * 146097).
  f_equal. f_equal. lia.
Qed.

(** The date computed for a day number is a valid date of the calendar,
    and the one that has this day number. *)
Lemma civil_from_days_correct days :
  let '(y, m, d) := civil_from_days days in
  valid_date y m d = true /\ day_number y m d = days.
Proof.
  set (k := (days + 719468) / 146097).
  set (days0 := days - 146097 * k).
  assert (Hz : 0 <= days0 + 719468 < 146097)
    by (subst days0 k; Z.div_mod_to_equations; lia).
  assert (Hp : (2 ^ Z.of_nat 18) = 262144) by reflexivity.
  pose proof (all_below_spec 146097 18 0 _ check_cycle (days0 + 719468)
                ltac:(rewrite Hp; lia) ltac:(lia)) as Hc.
  unfold check_day in Hc.
  replace (days0 + 719468 - 719468) with days0 in Hc by lia.
  replace days with (days0 + 146097 * k) by (subst days0; lia).
  rewrite civil_from_days_shift.
  destruct (civil_from_days days0) as [[y m] d].
  apply andb_true_iff in Hc. destruct Hc as [Hv Hn].
  apply Z.eqb_eq in Hn.
  split.
  - unfold valid_date, days_in_month in *. rewrite is_leap_shift. exact Hv.
  - unfold day_number in *. rewrite DayFromYear_shift, days_before_shift. lia.
Qed.

Lemma days_in_month_range y m : 28 <= days_in_month y m <= 31.
Proof.
  unfold days_in_month.
  destruct (m =? 2); [destruct (is_leap y); lia|].
  destruct ((m =? 4) || (m =? 6) || (m =? 9) || (m =? 11)); lia.
Qed.

Lemma days_before_range y n : 0 <= days_before y n <= 31 * Z.of_nat n.
Proof.
  induction n as [|n IH]; [simpl; lia|].
  cbn [days_before].
  pose proof (days_in_month_range y (Z.of_nat (S n))). lia.
Qed.

(** A time value is at most 10^8 days from the epoch, and its year has at
    most six digits. *)
Lemma year_of_time_value y m d days :
  valid_date y m d = true -> day_number y m d = days ->
  -100000000 <= days <= 100000000 ->
  -999999 <= y <= 999999.
Proof.
  unfold valid_date, day_number. rewrite !andb_true_iff, !Z.leb_le.
  intros [[[Hm1 Hm2] Hd1] Hd2] Hn Hdays.
  pose proof (days_in_month_range y m) as Hdm.
  pose proof (days_before_range y (Z.to_nat (m - 1))) as Hdb.
  rewrite Z2Nat.id in Hdb by lia.
  unfold DayFromYear in Hn. Z.div_mod_to_equations. lia.
Qed.

Lemma digit_value_char x : digit_value (Z.to_N (48 + x mod 10)) = x mod 10.
Proof.
  assert (Hx : 0 <= x mod 10 < 10) by (apply Z.mod_pos_bound; lia).
  unfold digit_value. lia.
Qed.

Lemma read_two v :
  0 <= v <= 99 -> read_number (fixed_digits 2 v) = Some v.
Proof.
  intros Hv. unfold read_number. rewrite fixed_digits_digits.
  cbn [fixed_digits app fold_left]. rewrite !digit_value_char.
  f_equal. Z.div_mod_to_equations. lia.
Qed.

Lemma read_four v :
  0 <= v <= 9999 -> read_number (fixed_digits 4 v) = Some v.
Proof.
  intros Hv. unfold read_number. rewrite fixed_digits_digits.
  cbn [fixed_digits app fold_left]. rewrite !digit_value_char.
  f_equal. Z.div_mod_to_equations. lia.
Qed.

Lemma read_six v :
  0 <= v <= 999999 -> read_number (fixed_digits 6 v) = Some v.
Proof.
  intros Hv. unfold read_number. rewrite fixed_digits_digits.
  cbn [fixed_digits app fold_left]. rewrite !digit_value_char.
  f_equal. Z.div_mod_to_equations. lia.
Qed.

End CalendarFacts.

Section DateRead.

Import Calendar.
Local Open Scope Z_scope.

(** The date part of [toISOString] reads as the date of the day of the
    time value, and has the form YYYY-MM-DD exactly when the year is
    within 0..9999. *)
Lemma read_iso_date t y m d :
  civil_from_days (Day t) = (y, m, d) ->
  valid_date y m d = true ->
  -999999 <= y <= 999999 ->
  read_date (iso_date t) = Some (y, m, d)
  /\ (is_ymd (iso_date t) = true <-> 0 <= y <= 9999).
Proof.
  intros Hciv Hvalid Hy.
  unfold valid_date in Hvalid. rewrite !andb_true_iff, !Z.leb_le in Hvalid.
  destruct Hvalid as [[[Hm1 Hm2] Hd1] Hd2].
  pose proof (days_in_month_range y m) as Hdm.
  assert (Rm : read_number (fixed_digits 2 m) = Some m) by (apply read_two; lia).
  assert (Rd : read_number (fixed_digits 2 d) = Some d) by (apply read_two; lia).
  unfold iso_date. rewrite Hciv. unfold iso_year.
  destruct ((0 <=? y) && (y <=? 9999)) eqn:Hrange.
  - apply andb_true_iff in Hrange. rewrite !Z.leb_le in Hrange.
    assert (Ry : read_number (fixed_digits 4 y) = Some y)
      by (apply read_four; lia).
    revert Ry Rm Rd. cbn [fixed_digits app]. intros Ry Rm Rd.
    unfold read_date, is_ymd. cbn [forallb].
    rewrite !digit_char. rewrite N.eqb_refl. cbn [andb].
    unfold read_fields. rewrite Ry, Rm, Rd.
    split; [f_equal; f_equal; f_equal; lia|].
    split; [intros _; lia|reflexivity].
  - assert (Hout : y < 0 \/ 9999 < y).
    { apply andb_false_iff in Hrange.
      destruct Hrange as [Hr|Hr]; apply Z.leb_gt in Hr; lia. }
    assert (Ry : read_number (fixed_digits 6 (Z.abs y)) = Some (Z.abs y))
      by (apply read_six; lia).
    revert Ry Rm Rd. cbn [fixed_digits app]. intros Ry Rm Rd.
    destruct (y <? 0) eqn:Hneg;
      [apply Z.ltb_lt in Hneg|apply Z.ltb_ge in Hneg];
      unfold read_date, is_ymd; cbn [N.eqb Pos.eqb orb andb];
      unfold read_fields; rewrite Ry, Rm, Rd;
      (split; [f_equal; f_equal; f_equal; lia|]);
      (split; [discriminate|lia]).
Qed.

Lemma date_of_string_range H s t :
  Date_of_string H s = Some t -> -8640000000000000 <= t <= 8640000000000000.
Proof.
  unfold Date_of_string, TimeClip.
  destruct (Date_parse H s) as [t0|]; [|discriminate].
  destruct (Z.leb_spec (Z.abs t0) 8640000000000000); [|discriminate].
  intros E. injection E as <-. lia.
Qed.

(** What the hook stores for a valid time value. *)
Lemma stored_date t :
  -8640000000000000 <= t <= 8640000000000000 ->
  exists y m d,
    read_date (iso_date t) = Some (y, m, d)
    /\ valid_date y m d = true
    /\ day_number y m d = t / 86400000
    /\ (is_ymd (iso_date t) = true <-> 0 <= y <= 9999).
Proof.
  intros Ht.
  pose proof (civil_from_days_correct (Day t)) as Hc.
  destruct (civil_from_days (Day t)) as [[y m] d] eqn:Hciv.
  destruct Hc as [Hvalid Hn].
  assert (Hdays : -100000000 <= Day t <= 100000000)
    by (unfold Day, msPerDay; Z.div_mod_to_equations; lia).
  pose proof (year_of_time_value y m d (Day t) Hvalid Hn Hdays) as Hy.
  destruct (read_iso_date t y m d Hciv Hvalid Hy) as [Hread Hform].
  exists y, m, d. split_all; [exact Hread|exact Hvalid|exact Hn|exact Hform].
Qed.

End DateRead.

(** X17. What the hook stores for a non-empty date among the changed
    fields.  When [new Date(date)] is a valid time value, the stored string
    reads as a valid calendar date whose day number is the whole number of
    days of the time value, that is the day in UTC of that instant, and it
    has the form YYYY-MM-DD exactly when the year is within 0..9999.  When
    the time value is not valid the date is left exactly as given, and the
    hook still lets the write through when the date is not blank and
    nothing else is amiss. *)
Theorem hook_normalises_date (H : host) (d : Event.doc)
    (s : jsstring) :
  Event.isModified d "date" = true ->
  Event.date d = Some s ->
  s <> [] ->
  let d' := fst (Event.pre_save H d) in
  let out := snd (Event.pre_save H d) in
  (forall t, Date_of_string H s = Some t ->
     exists stored y m dd,
       Event.date d' = Some stored
       /\ Calendar.read_date stored = Some (y, m, dd)
       /\ Calendar.valid_date y m dd = true
       /\ Calendar.day_number y m dd = (t / 86400000)%Z
       /\ (Calendar.is_ymd stored = true <-> (0 <= y <= 9999)%Z))
  /\ (Date_of_string H s = None -> Event.date d' = Some s)
  /\ (Date_of_string H s = None ->
      Fields.is_blank (Some s) = false ->
      (forall f v, In (f, v) (Fields.required_strings d') ->
                   f <> "date"%string -> Fields.is_blank v = false) ->
      (exists x l, Event.agenda d = Some (x :: l)) ->
      (exists x l, Event.tags d = Some (x :: l)) ->
      out = Next).
Proof.
  intros Hmod Hdate Hs d' out.
  assert (Hd' : Event.date d' =
                match Date_of_string H s with
                | Some t => Some (iso_date t)
                | None => Some s
                end).
  { unfold d'. rewrite date_after_hook, Hmod, Hdate.
    destruct s as [|c s]; [contradiction|]. reflexivity. }
  split_all.
  - intros t Ht. rewrite Ht in Hd'.
    destruct (stored_date t (date_of_string_range H s t Ht))
      as (y & m & dd & Hread & Hvalid & Hn & Hform).
    exists (iso_date t), y, m, dd.
    split_all; [exact Hd'|exact Hread|exact Hvalid|exact Hn|exact Hform].
  - intros Ht. rewrite Ht in Hd'. exact Hd'.
  - intros Ht Hblank Hothers Hagenda Htags. rewrite Ht in Hd'.
    destruct (hook_verdict H d) as [_ Hrest]. cbv zeta in Hrest.
    fold d' in Hrest. fold out in Hrest.
    assert (Hall : forall f v, In (f, v) (Fields.required_strings d') ->
                               Fields.is_blank v = false).
    { intros f v Hin.
      destruct (String.string_dec f "date") as [E|E]; [|apply (Hothers f v Hin E)].
      subst f. cbn [Fields.required_strings In] in Hin.
      repeat (destruct Hin as [Hin|Hin];
              [first [discriminate Hin
                     | injection Hin as <-; rewrite Hd'; exact Hblank]|]).
      contradiction. }
    apply (proj2 (proj2 (Hrest Hall) Hagenda) Htags).
Qed.

Lemma hook_normalises_date_witness :
  (exists stored y m dd,
     Event.date (fst (Event.pre_save Sample2.iso_host
                        (Sample.meetup (Some [js "Doors open"]) {[ "date"%string ]})))
     = Some stored
     /\ Calendar.read_date stored = Some (y, m, dd)
     /\ Calendar.valid_date y m dd = true
     /\ Calendar.day_number y m dd = (1741132800000 / 86400000)%Z
     /\ (Calendar.is_ymd stored = true <-> (0 <= y <= 9999)%Z))
  /\ Event.date (fst (Event.pre_save Sample.utc_host
                        (Sample.meetup (Some [js "Doors open"]) {[ "date"%string ]})))
     = Some (js "2025-03-05")
  /\ snd (Event.pre_save Sample.utc_host
            (Sample.meetup (Some [js "Doors open"]) {[ "date"%string ]}))
     = Next.
Proof.
  assert (Hne : js "2025-03-05" <> []) by discriminate.
  assert (Hmod : Event.isModified
                   (Sample.meetup (Some [js "Doors open"]) {[ "date"%string ]})
                   "date" = true) by (vm_compute; reflexivity).
  split_all.
  - apply (proj1 (hook_normalises_date Sample2.iso_host
                    (Sample.meetup (Some [js "Doors open"]) {[ "date"%string ]})
                    (js "2025-03-05") Hmod eq_refl Hne) 1741132800000%Z).
    vm_compute. reflexivity.
  - apply (proj1 (proj2 (hook_normalises_date Sample.utc_host
                    (Sample.meetup (Some [js "Doors open"]) {[ "date"%string ]})
                    (js "2025-03-05") Hmod eq_refl Hne))).
    reflexivity.
  - apply (proj2 (proj2 (hook_normalises_date Sample.utc_host
                    (Sample.meetup (Some [js "Doors open"]) {[ "date"%string ]})
                    (js "2025-03-05") Hmod eq_refl Hne))).
    + reflexivity.
    + vm_compute. reflexivity.
    + intros f v Hin Hne'. vm_compute in Hin.
      repeat (destruct Hin as [Hin|Hin];
              [injection Hin as <- <-; vm_compute; reflexivity|]).
      contradiction.
    + eexists _, _. reflexivity.
    + eexists _, _. reflexivity.
Defined.

(** C9, at two dates that parse.  The hook means to write the date as
    YYYY-MM-DD, and takes the date part of [toISOString]: for an instant of
    the year 10000 that is a sign and a year of six digits, neither
    YYYY-MM-DD nor the string as given; and it is the day in UTC, so that
    "March 5, 2025", read as midnight nine hours east of Greenwich, is
    stored as the fourth of March. *)
Theorem date_normalisation_diverges (H : host) :
  (Date_parse H (js "+010000-01-01T12:00:00Z") = Some 253402344000000%Z ->
   Event.date (fst (Event.pre_save H
                      (Sample2.dated_meetup (js "+010000-01-01T12:00:00Z"))))
   = Some (js "+010000-01-01")
   /\ Calendar.is_ymd (js "+010000-01-01") = false
   /\ js "+010000-01-01" <> js "+010000-01-01T12:00:00Z")
  /\ (Date_parse H (js "March 5, 2025") = Some 1741100400000%Z ->
      Event.date (fst (Event.pre_save H
                         (Sample2.dated_meetup (js "March 5, 2025"))))
      = Some (js "2025-03-04")
      /\ Calendar.read_date (js "2025-03-04") = Some (2025, 3, 4)%Z).
Proof.
  assert (Hmod : forall s,
             Event.isModified (Sample2.dated_meetup s) "date" = true)
    by (intros s; vm_compute; reflexivity).
  split; intros Hparse; (split; [|vm_compute; try split; congruence]);
    rewrite date_after_hook, Hmod; cbn [Sample2.dated_meetup Event.date];
    unfold Event.present, Event.or_empty; cbn [andb];
    unfold Date_of_string; rewrite Hparse; vm_compute; reflexivity.
Qed.

Lemma date_normalisation_diverges_witness :
  Event.date (fst (Event.pre_save Sample2.tokyo_host
                     (Sample2.dated_meetup (js "+010000-01-01T12:00:00Z"))))
  = Some (js "+010000-01-01")
  /\ Event.date (fst (Event.pre_save Sample2.tokyo_host
                        (Sample2.dated_meetup (js "March 5, 2025"))))
     = Some (js "2025-03-04").
Proof.
  split.
  - apply (proj1 (date_normalisation_diverges Sample2.tokyo_host)).
    vm_compute. reflexivity.
  - apply (proj2 (date_normalisation_diverges Sample2.tokyo_host)).
    vm_compute. reflexivity.
Defined.

(** * The matcher against the meaning of patterns *)

Section MatcherCorrect.

Lemma star_loop_self step fuel st : In st (star_loop step fuel st).
Proof.
  destruct fuel; simpl; [left; reflexivity|].
  apply in_or_app. right. left. reflexivity.
Qed.

Lemma star_loop_mono step x : forall f1 f2 st,
  (f1 <= f2)%nat ->
  In x (star_loop step f1 st) -> In x (star_loop step f2 st).
Proof.
  induction f1 as [|f1 IH]; intros f2 st Hle Hin.
  - simpl in Hin. destruct Hin as [E|[]]. subst x. apply star_loop_self.
  - destruct f2 as [|f2]; [lia|].
    simpl in Hin |- *. apply in_app_or in Hin. apply in_or_app.
    destruct Hin as [Hin|Hin]; [left|right; exact Hin].
    apply in_flat_map in Hin. destruct Hin as (st1 & H1 & H2).
    apply in_flat_map. exists st1. split; [exact H1|].
    destruct (pos st <? pos st1)%nat; [|exact H2].
    apply IH; [lia|exact H2].
Qed.

(** Every state the matcher returns is a match. *)
Lemma run_sound r : forall st st',
  In st' (run r st) ->
  exists w, rest st = w ++ rest st'
            /\ pos st' = (pos st + length w)%nat
            /\ Matches r (pos st) w (rest st').
Proof.
  induction r as [p| | | |r1 IH1 r2 IH2|r1 IH1 r2 IH2|r IH|g r IH];
    intros st st' Hin.
  - simpl in Hin. destruct (rest st) as [|c s'] eqn:Hr; [contradiction|].
    destruct (p c) eqn:Hc; [|contradiction].
    destruct Hin as [E|[]]. subst st'. simpl.
    exists [c]. split_all; [reflexivity|simpl; lia|constructor; exact Hc].
  - simpl in Hin. destruct (pos st) eqn:Hp; [|contradiction].
    destruct Hin as [E|[]]. subst st'.
    exists []. rewrite Hp. split_all; [reflexivity|reflexivity|constructor].
  - simpl in Hin. destruct (rest st) eqn:Hr; [|contradiction].
    destruct Hin as [E|[]]. subst st'.
    exists []. rewrite Hr. split_all; [reflexivity|simpl; lia|constructor].
  - simpl in Hin. destruct Hin as [E|[]]. subst st'.
    exists []. split_all; [reflexivity|simpl; lia|constructor].
  - simpl in Hin. apply in_flat_map in Hin. destruct Hin as (st1 & H1 & H2).
    destruct (IH1 _ _ H1) as (w1 & E1 & P1 & M1).
    destruct (IH2 _ _ H2) as (w2 & E2 & P2 & M2).
    exists (w1 ++ w2). split_all.
    + rewrite E1, E2, app_assoc. reflexivity.
    + rewrite P2, P1, length_app. lia.
    + constructor; [rewrite <- E2; exact M1|rewrite <- P1; exact M2].
  - simpl in Hin. apply in_app_or in Hin. destruct Hin as [Hin|Hin].
    + destruct (IH1 _ _ Hin) as (w & E & P & M).
      exists w. split_all; [exact E|exact P|apply M_Alt_l, M].
    + destruct (IH2 _ _ Hin) as (w & E & P & M).
      exists w. split_all; [exact E|exact P|apply M_Alt_r, M].
  - simpl in Hin. remember (length (rest st)) as fuel eqn:Hf. clear Hf.
    revert st st' Hin.
    induction fuel as [|fuel IHf]; intros st st' Hin.
    + simpl in Hin. destruct Hin as [E|[]]. subst st'.
      exists []. split_all; [reflexivity|simpl; lia|constructor].
    + simpl in Hin. apply in_app_or in Hin. destruct Hin as [Hin|Hin].
      * apply in_flat_map in Hin. destruct Hin as (st1 & H1 & H2).
        destruct (pos st <? pos st1)%nat eqn:Hlt; [|contradiction].
        apply Nat.ltb_lt in Hlt.
        destruct (IH _ _ H1) as (w1 & E1 & P1 & M1).
        destruct (IHf _ _ H2) as (w2 & E2 & P2 & M2).
        exists (w1 ++ w2). split_all.
        -- rewrite E1, E2, app_assoc. reflexivity.
        -- rewrite P2, P1, length_app. lia.
        -- apply M_Star_cons.
           ++ intros ->. simpl in P1. lia.
           ++ rewrite <- E2. exact M1.
           ++ rewrite <- P1. exact M2.
      * destruct Hin as [E|[]]. subst st'.
        exists []. split_all; [reflexivity|simpl; lia|constructor].
  - simpl in Hin. apply in_map_iff in Hin. destruct Hin as (st1 & E & H1).
    subst st'. simpl.
    destruct (IH _ _ H1) as (w & E1 & P1 & M1).
    exists w. split_all; [exact E1|exact P1|constructor; exact M1].
Qed.

(** Every match is among the states the matcher returns. *)
Lemma run_complete r n w k :
  Matches r n w k ->
  forall cs, exists cs',
    In (MState (n + length w) k cs') (run r (MState n (w ++ k) cs)).
Proof.
  induction 1 as [p n c k Hc|k|n|n k|r1 r2 n w1 w2 k M1 IH1 M2 IH2
                 |r1 r2 n w k M IH|r1 r2 n w k M IH|r n k
                 |r n w1 w2 k Hne M1 IH1 M2 IH2|g r n w k M IH]; intros cs.
  - exists cs. simpl. rewrite Hc. left. f_equal. lia.
  - exists cs. simpl. left. reflexivity.
  - exists cs. simpl. left. f_equal. lia.
  - exists cs. simpl. left. f_equal. lia.
  - destruct (IH1 cs) as [cs1 H1]. destruct (IH2 cs1) as [cs2 H2].
    exists cs2. simpl. apply in_flat_map.
    exists (MState (n + length w1) (w2 ++ k) cs1).
    rewrite <- app_assoc. split; [exact H1|].
    rewrite length_app, Nat.add_assoc. exact H2.
  - destruct (IH cs) as [cs1 H1]. exists cs1. simpl.
    apply in_or_app. left. exact H1.
  - destruct (IH cs) as [cs1 H1]. exists cs1. simpl.
    apply in_or_app. right. exact H1.
  - exists cs. simpl. rewrite Nat.add_0_r. apply star_loop_self.
  - destruct (IH1 cs) as [cs1 H1]. destruct (IH2 cs1) as [cs2 H2].
    exists cs2. simpl in H2 |- *.
    rewrite <- app_assoc, length_app.
    destruct w1 as [|c w1]; [contradiction|].
    simpl length. simpl plus.
    change (star_loop (run r) (S (length w1 + length (w2 ++ k)))
              (MState n ((c :: w1) ++ w2 ++ k) cs))
      with (flat_map
              (fun st' =>
                 if (n <? pos st')%nat
                 then star_loop (run r) (length w1 + length (w2 ++ k)) st'
                 else [])
              (run r (MState n ((c :: w1) ++ w2 ++ k) cs))
            ++ [MState n ((c :: w1) ++ w2 ++ k) cs]).
    apply in_or_app. left. apply in_flat_map.
    exists (MState (n + length (c :: w1)) (w2 ++ k) cs1).
    split; [exact H1|].
    cbn [pos].
    replace (n <? n + length (c :: w1))%nat with true
      by (symmetry; apply Nat.ltb_lt; simpl; lia).
    apply (star_loop_mono _ _ (length (w2 ++ k)));
      [rewrite !length_app; lia|].
    replace (n + S (length w1 + length w2))%nat
      with (n + length (c :: w1) + length w2)%nat by (simpl; lia).
    exact H2.
  - destruct (IH cs) as [cs1 H1]. eexists. simpl.
    apply in_map_iff.
    exists (MState (n + length w) k cs1). split; [reflexivity|exact H1].
Qed.

(** A pattern anchored at the start is tested at index 0 only. *)
Lemma test_anchored r s :
  test (Seq Bol r) s = true <-> run r (MState 0 s []) <> [].
Proof.
  assert (Hlater : forall s n, exec_from (Seq Bol r) (S n) s = None).
  { clear s. induction s as [|c s IH]; intros n; simpl; [reflexivity|].
    apply IH. }
  assert (Hexec : exec_from (Seq Bol r) 0 s =
                  match run r (MState 0 s []) with
                  | st :: _ => Some (O, st)
                  | [] => None
                  end).
  { assert (Hrun : run (Seq Bol r) (MState 0 s []) = run r (MState 0 s []))
      by (simpl; apply app_nil_r).
    destruct s as [|c s];
      change (exec_from (Seq Bol r) 0 []) with
        (match run (Seq Bol r) (MState 0 [] []) with
         | st :: _ => Some (O, st)
         | [] => None
         end) ||
      change (exec_from (Seq Bol r) 0 (c :: s)) with
        (match run (Seq Bol r) (MState 0 (c :: s) []) with
         | st :: _ => Some (O, st)
         | [] => exec_from (Seq Bol r) 1 s
         end);
      rewrite Hrun; destruct (run r _); try rewrite Hlater; reflexivity. }
  unfold test. rewrite Hexec.
  destruct (run r (MState 0 s [])); split; intros Hx;
    try discriminate; try reflexivity.
  exfalso. apply Hx. reflexivity.
Qed.

Lemma matches_seq_inv r1 r2 n w k :
  Matches (Seq r1 r2) n w k ->
  exists w1 w2, w = w1 ++ w2 /\ Matches r1 n w1 (w2 ++ k)
                /\ Matches r2 (n + length w1) w2 k.
Proof. inversion 1; subst. eexists _, _. split_all; eauto. Qed.

Lemma matches_eol_inv n w k : Matches Eol n w k -> w = [] /\ k = [].
Proof. inversion 1; subst. split; reflexivity. Qed.

(** [test] of a pattern between [^] and [$] decides whether the whole
    input is a match. *)
Lemma test_whole r s :
  test (Seq Bol (Seq r Eol)) s = true <-> Matches r 0 s [].
Proof.
  rewrite test_anchored. split.
  - intros Hne. destruct (run (Seq r Eol) (MState 0 s [])) as [|st l] eqn:Hr;
      [contradiction|].
    assert (Hin : In st (run (Seq r Eol) (MState 0 s [])))
      by (rewrite Hr; left; reflexivity).
    destruct (run_sound _ _ _ Hin) as (w & E & _ & M). cbn [rest pos] in E, M.
    apply matches_seq_inv in M. destruct M as (w1 & w2 & -> & M1 & M2).
    apply matches_eol_inv in M2. destruct M2 as [-> E2].
    rewrite E2 in E, M1. rewrite !app_nil_r in E. subst s. exact M1.
  - intros M.
    assert (M' : Matches (Seq r Eol) 0 (s ++ []) []).
    { constructor; [simpl; exact M|constructor]. }
    destruct (run_complete _ _ _ _ M' []) as [cs Hin].
    rewrite !app_nil_r in Hin. intros E. rewrite E in Hin. contradiction.
Qed.

(** Without anchors a match depends neither on the index nor on what
    follows: it is membership in the language of the pattern. *)
Lemma matches_lang r n w k :
  Matches r n w k -> anchor_free r = true -> lang r w.
Proof.
  induction 1 as [p n c k Hc|k|n|n k|r1 r2 n w1 w2 k M1 IH1 M2 IH2
                 |r1 r2 n w k M IH|r1 r2 n w k M IH|r n k
                 |r n w1 w2 k Hne M1 IH1 M2 IH2|g r n w k M IH];
    simpl; intros Ha; try discriminate.
  - exists c. split; [reflexivity|exact Hc].
  - reflexivity.
  - apply andb_true_iff in Ha. destruct Ha as [Ha1 Ha2].
    exists w1, w2. split_all; [reflexivity|apply IH1, Ha1|apply IH2, Ha2].
  - apply andb_true_iff in Ha. left. apply IH, Ha.
  - apply andb_true_iff in Ha. right. apply IH, Ha.
  - exists []. split; [reflexivity|constructor].
  - destruct (IH2 Ha) as (ws & E & Hws).
    exists (w1 :: ws). split; [simpl; rewrite E; reflexivity|].
    constructor; [split; [exact Hne|apply IH1, Ha]|exact Hws].
  - apply IH, Ha.
Qed.

Lemma lang_matches r : forall w n k,
  anchor_free r = true -> lang r w -> Matches r n w k.
Proof.
  induction r as [p| | | |r1 IH1 r2 IH2|r1 IH1 r2 IH2|r IH|g r IH];
    simpl; intros w n k Ha Hl; try discriminate.
  - destruct Hl as (c & -> & Hc). constructor. exact Hc.
  - subst w. constructor.
  - apply andb_true_iff in Ha. destruct Ha as [Ha1 Ha2].
    destruct Hl as (w1 & w2 & -> & L1 & L2).
    constructor; [apply IH1|apply IH2]; assumption.
  - apply andb_true_iff in Ha. destruct Ha as [Ha1 Ha2].
    destruct Hl as [L|L]; [apply M_Alt_l, IH1|apply M_Alt_r, IH2]; assumption.
  - destruct Hl as (ws & -> & Hws). revert n.
    induction Hws as [|x ws [Hx Lx] Hws IHws]; intros n; simpl.
    + constructor.
    + apply M_Star_cons; [exact Hx|apply IH; assumption|apply IHws].
  - constructor. apply IH; assumption.
Qed.

End MatcherCorrect.

(** * The email validator *)

Section EmailFacts.

Import Booking.

Lemma lang_chr c w : lang (Chr c) w <-> w = [c].
Proof.
  simpl. split.
  - intros (x & -> & Hx). apply N.eqb_eq in Hx. subst x. reflexivity.
  - intros ->. exists c. split; [reflexivity|apply N.eqb_refl].
Qed.

Lemma lang_cls_star p w : lang (Star (Cls p)) w <-> forallb p w = true.
Proof.
  simpl. split.
  - intros (ws & -> & Hws).
    induction Hws as [|x ws [_ (c & -> & Hc)] _ IH]; [reflexivity|].
    simpl. rewrite Hc. exact IH.
  - intros Hw. exists (List.map (fun c => [c]) w). split.
    + induction w as [|c w IH]; [reflexivity|]. simpl in Hw |- *.
      apply andb_true_iff in Hw. rewrite <- IH by apply Hw. reflexivity.
    + induction w as [|c w IH]; [constructor|]. simpl in Hw |- *.
      apply andb_true_iff in Hw. destruct Hw as [Hc Hw].
      constructor; [|apply IH, Hw].
      split; [discriminate|]. exists c. split; [reflexivity|exact Hc].
Qed.

Lemma lang_cls_plus p w :
  lang (Plus (Cls p)) w <-> w <> [] /\ forallb p w = true.
Proof.
  unfold Plus.
  change (lang (Seq (Cls p) (Star (Cls p))) w)
    with (exists w1 w2, w = w1 ++ w2 /\ lang (Cls p) w1
                        /\ lang (Star (Cls p)) w2).
  split.
  - intros (w1 & w2 & -> & (c & -> & Hc) & H2).
    apply lang_cls_star in H2. split; [discriminate|].
    simpl. rewrite Hc. exact H2.
  - intros [Hne Hw]. destruct w as [|c w]; [contradiction|].
    simpl in Hw. apply andb_true_iff in Hw. destruct Hw as [Hc Hw].
    exists [c], w. split_all; [reflexivity| |apply lang_cls_star, Hw].
    exists c. split; [reflexivity|exact Hc].
Qed.

Lemma lang_atom w : lang atom w <-> Spec.atom_word w.
Proof. apply lang_cls_plus. Qed.

(** A starred pattern whose iterations are the images under [f] of the
    words of [P]. *)
Lemma lang_star_map R (P : jsstring -> Prop) (f : jsstring -> jsstring) w :
  (forall x, x <> [] /\ lang R x <-> exists a, x = f a /\ P a) ->
  lang (Star R) w <->
  exists l, w = List.concat (List.map f l) /\ Forall P l.
Proof.
  intros HR. simpl. split.
  - intros (ws & -> & Hws).
    induction Hws as [|x ws Hx _ (l & El & Hl)].
    + exists []. split; [reflexivity|constructor].
    + apply HR in Hx. destruct Hx as (a & -> & Ha).
      exists (a :: l). simpl. rewrite El. split; [reflexivity|].
      constructor; assumption.
  - intros (l & -> & Hl). exists (List.map f l). split; [reflexivity|].
    induction Hl as [|a l Ha _ IH]; simpl; constructor; [|exact IH].
    apply HR. exists a. split; [reflexivity|exact Ha].
Qed.

Lemma lang_dot_atom x :
  x <> [] /\ lang (Group 3 (Seq (Chr 46) atom)) x <->
  exists a, x = 46 :: a /\ Spec.atom_word a.
Proof.
  change (lang (Group 3 (Seq (Chr 46) atom)) x)
    with (exists w1 w2, x = w1 ++ w2 /\ lang (Chr 46) w1 /\ lang atom w2).
  split.
  - intros (_ & w1 & w2 & -> & H1 & H2).
    apply lang_chr in H1. subst w1. apply lang_atom in H2.
    exists w2. split; [reflexivity|exact H2].
  - intros (a & -> & Ha). split; [discriminate|].
    exists [46], a. split_all; [reflexivity|apply lang_chr; reflexivity|].
    apply lang_atom, Ha.
Qed.

Lemma lang_label x :
  x <> [] /\ lang (Group 6 (Seq atom (Chr 46))) x <->
  exists a, x = a ++ [46] /\ Spec.atom_word a.
Proof.
  change (lang (Group 6 (Seq atom (Chr 46))) x)
    with (exists w1 w2, x = w1 ++ w2 /\ lang atom w1 /\ lang (Chr 46) w2).
  split.
  - intros (_ & w1 & w2 & -> & H1 & H2).
    apply lang_chr in H2. subst w2. apply lang_atom in H1.
    exists w1. split; [reflexivity|exact H1].
  - intros (a & -> & Ha). split; [destruct a; discriminate|].
    exists a, [46]. split_all; [reflexivity|apply lang_atom, Ha|].
    apply lang_chr. reflexivity.
Qed.

Lemma lang_unquoted w : lang re_unquoted w <-> Spec.unquoted_local w.
Proof.
  unfold re_unquoted, Spec.unquoted_local.
  change (lang (Group 2 (Seq atom (Star (Group 3 (Seq (Chr 46) atom))))) w)
    with (exists w1 w2, w = w1 ++ w2 /\ lang atom w1
            /\ lang (Star (Group 3 (Seq (Chr 46) atom))) w2).
  split.
  - intros (w1 & w2 & -> & H1 & H2). apply lang_atom in H1.
    apply (lang_star_map _ _ _ _ lang_dot_atom) in H2.
    destruct H2 as (l & -> & Hl). exists w1, l. split_all; auto.
  - intros (a & l & -> & Ha & Hl).
    exists a, (List.concat (List.map (fun x => 46 :: x) l)).
    split_all; [reflexivity|apply lang_atom, Ha|].
    apply (lang_star_map _ _ _ _ lang_dot_atom). exists l. split; auto.
Qed.

Lemma lang_quoted w : lang re_quoted w <-> Spec.quoted_local w.
Proof.
  unfold re_quoted, Spec.quoted_local.
  change (lang (Group 4 (Seq (Chr 34) (Seq (Plus (Cls any_char)) (Chr 34)))) w)
    with (exists w1 w2, w = w1 ++ w2 /\ lang (Chr 34) w1
            /\ exists w3 w4, w2 = w3 ++ w4 /\ lang (Plus (Cls any_char)) w3
                             /\ lang (Chr 34) w4).
  split.
  - intros (w1 & w2 & -> & H1 & w3 & w4 & -> & H3 & H4).
    apply lang_chr in H1, H4. subst w1 w4. apply lang_cls_plus in H3.
    exists w3. split_all; [reflexivity|apply H3|apply H3].
  - intros (inner & -> & Hne & Hall).
    exists [34], (inner ++ [34]).
    split_all; [reflexivity|apply lang_chr; reflexivity|].
    exists inner, [34]. split_all; [reflexivity| |apply lang_chr; reflexivity].
    apply lang_cls_plus. split; assumption.
Qed.

Lemma lang_tld w :
  lang re_tld w <-> forallb atext w = true /\ (2 <= length w)%nat.
Proof.
  unfold re_tld.
  change (lang (Seq (Cls atext) (Seq (Cls atext) (Star (Cls atext)))) w)
    with (exists w1 w2, w = w1 ++ w2 /\ lang (Cls atext) w1
            /\ exists w3 w4, w2 = w3 ++ w4 /\ lang (Cls atext) w3
                             /\ lang (Star (Cls atext)) w4).
  split.
  - intros (w1 & w2 & -> & (c1 & -> & H1) & w3 & w4 & -> & (c2 & -> & H2) & H4).
    apply lang_cls_star in H4. simpl. rewrite H1, H2, H4.
    split; [reflexivity|lia].
  - intros [Hall Hlen].
    destruct w as [|c1 [|c2 w]]; simpl in Hlen; try lia.
    simpl in Hall. apply andb_true_iff in Hall. destruct Hall as [H1 Hall].
    apply andb_true_iff in Hall. destruct Hall as [H2 Hall].
    exists [c1], (c2 :: w). split_all; [reflexivity|exists c1; auto|].
    exists [c2], w. split_all; [reflexivity|exists c2; auto|].
    apply lang_cls_star, Hall.
Qed.

Lemma lang_domain w : lang re_domain w <-> Spec.domain w.
Proof.
  unfold re_domain, Spec.domain, Plus.
  change (lang (Group 5 (Seq (Seq (Group 6 (Seq atom (Chr 46)))
                               (Star (Group 6 (Seq atom (Chr 46))))) re_tld)) w)
    with (exists w1 w2, w = w1 ++ w2
            /\ (exists w3 w4, w1 = w3 ++ w4
                  /\ lang (Group 6 (Seq atom (Chr 46))) w3
                  /\ lang (Star (Group 6 (Seq atom (Chr 46)))) w4)
            /\ lang re_tld w2).
  split.
  - intros (w1 & w2 & -> & (w3 & w4 & -> & H3 & H4) & H2).
    apply lang_tld in H2.
    apply (lang_star_map _ _ _ _ lang_label) in H4.
    destruct H4 as (l & -> & Hl).
    assert (H3' : w3 <> [] /\ lang (Group 6 (Seq atom (Chr 46))) w3).
    { split; [|exact H3]. destruct H3 as (a & b & -> & Ha & Hb).
      apply lang_chr in Hb. subst b. destruct a; discriminate. }
    apply lang_label in H3'. destruct H3' as (a & -> & Ha).
    exists (a :: l), w2. split_all; try apply H2.
    + reflexivity.
    + discriminate.
    + constructor; assumption.
  - intros (labels & tld & -> & Hne & Hl & Hall & Hlen).
    destruct labels as [|a l]; [contradiction|].
    inversion Hl as [|? ? Ha Hl']; subst.
    exists (List.concat (List.map (fun x => x ++ [46]) (a :: l))), tld.
    split_all; [reflexivity| |apply lang_tld; split; assumption].
    exists (a ++ [46]), (List.concat (List.map (fun x => x ++ [46]) l)).
    split_all; [reflexivity| |].
    + apply lang_label. exists a. split; [reflexivity|exact Ha].
    + apply (lang_star_map _ _ _ _ lang_label). exists l. split; auto.
Qed.

(** The validator accepts exactly the addresses of the grammar. *)
Lemma validator_grammar v : validator v = true <-> Spec.email_grammar v.
Proof.
  unfold validator, re_email, Spec.email_grammar.
  set (local := Group 1 (Alt re_unquoted re_quoted)).
  assert (Hlocal : forall w, lang local w <->
                     Spec.unquoted_local w \/ Spec.quoted_local w).
  { intros w. unfold local.
    change (lang (Group 1 (Alt re_unquoted re_quoted)) w)
      with (lang re_unquoted w \/ lang re_quoted w).
    rewrite lang_unquoted, lang_quoted. reflexivity. }
  assert (Fl : anchor_free local = true) by reflexivity.
  assert (Fd : anchor_free re_domain = true) by reflexivity.
  assert (Fa : anchor_free (Chr 64) = true) by reflexivity.
  rewrite test_anchored. split.
  - intros Hne.
    destruct (run _ (MState 0 v [])) as [|st l] eqn:Hr; [contradiction|].
    assert (Hin : In st (st :: l)) by (left; reflexivity).
    rewrite <- Hr in Hin.
    destruct (run_sound _ _ _ Hin) as (w & E & _ & M).
    cbn [rest pos] in E, M.
    apply matches_seq_inv in M. destruct M as (w1 & w2 & -> & M1 & M2).
    apply matches_seq_inv in M2. destruct M2 as (w3 & w4 & -> & M3 & M4).
    apply matches_seq_inv in M4. destruct M4 as (w5 & w6 & -> & M5 & M6).
    apply matches_eol_inv in M6. destruct M6 as [-> Hk].
    rewrite Hk, !app_nil_r in E. subst v.
    apply matches_lang in M1, M3, M5; try assumption.
    apply lang_chr in M3. subst w3.
    exists w1, w5. split_all; [reflexivity|apply Hlocal, M1|].
    apply lang_domain, M5.
  - intros (l & dm & -> & Hl & Hd).
    apply Hlocal in Hl. apply lang_domain in Hd.
    assert (Md : forall n, Matches (Seq re_domain Eol) n dm []).
    { intros n. rewrite <- (app_nil_r dm).
      apply M_Seq; [apply lang_matches; assumption|constructor]. }
    assert (M : Matches (Seq local (Seq (Chr 64) (Seq re_domain Eol))) 0
                  (l ++ 64 :: dm) []).
    { apply (M_Seq local _ 0 l (64 :: dm) []);
        [apply lang_matches; assumption|].
      apply (M_Seq (Chr 64) _ _ [64] dm []); [|apply Md].
      apply lang_matches; [exact Fa|apply lang_chr; reflexivity]. }
    destruct (run_complete _ _ _ _ M []) as [cs Hin].
    rewrite app_nil_r in Hin.
    intros E. rewrite E in Hin. contradiction.
Qed.

End EmailFacts.

(** C7. The email of a Booking is held trimmed and lowercased, and it is
    this value that the validator reads.  The validator accepts exactly the
    addresses of the grammar: a local part, unquoted or quoted, an at sign,
    and a domain of one dot-terminated label or more followed by a segment
    of two code units or more.  When a non-empty value does not match, the
    write fails with the error that names the value and the collection is
    left as it was; when it matches and the rest of the write goes through,
    the document is stored with the trimmed and lowercased email.  The
    input " USER@Example.COM " is stored as "user@example.com". *)
Theorem email_validated_and_normalised (H : host) (id : Booking.ObjectId)
    (ev : option Booking.ObjectId) (mail : jsstring) (ms : Booking.models)
    (bookings : gmap Booking.ObjectId Booking.doc) :
  let b := Booking.create H id ev (Some mail) in
  let v := trim (toLowerCase (Unicode_lower H) mail) in
  Booking.email b = Some v
  /\ (Booking.validator v = true <-> Spec.email_grammar v)
  /\ (v <> [] -> Booking.validator v = false ->
      fst (Booking.save ms bookings b) = bookings
      /\ exists errors,
           snd (Booking.save ms bookings b) = Booking.ValidationError errors
           /\ In ("email"%string, v ++ js " is not a valid email") errors)
  /\ (Booking.validator v = true -> ev <> None ->
      Booking.pre_save ms b = Next ->
      Booking.save ms bookings b = (<[id := b]> bookings, Booking.Saved)
      /\ fst (Booking.save ms bookings b) !! id
         = Some (Booking.Doc id ev (Some v)))
  /\ Booking.set_email H (js " USER@Example.COM ") = js "user@example.com"
  /\ Booking.save Sample.registered ∅
       (Booking.create H 7 (Some 1) (Some (js " USER@Example.COM ")))
     = ({[ 7 := Booking.Doc 7 (Some 1) (Some (js "user@example.com")) ]},
        Booking.Saved).
Proof.
  intros b v. split_all.
  - reflexivity.
  - apply validator_grammar.
  - intros Hne Hbad.
    assert (Hmail : Booking.validate_email b
                    = [("email"%string, v ++ js " is not a valid email")]).
    { unfold Booking.validate_email.
      change (Booking.email b) with (Some v).
      destruct v as [|c v']; [contradiction|]. rewrite Hbad. reflexivity. }
    unfold Booking.save, Booking.validate. rewrite Hmail.
    cbn [app fst snd].
    split; [reflexivity|]. eexists. split; [reflexivity|]. left. reflexivity.
  - intros Hok Hev Hhook.
    assert (Hval : Booking.validate b = []).
    { unfold Booking.validate, Booking.validate_eventId, Booking.validate_email.
      change (Booking.email b) with (Some v).
      change (Booking.eventId b) with ev.
      destruct ev; [|contradiction].
      destruct v as [|c v']; [discriminate Hok|]. rewrite Hok. reflexivity. }
    assert (Hsave : Booking.save ms bookings b
                    = (<[id := b]> bookings, Booking.Saved)).
    { unfold Booking.save. rewrite Hval, Hhook. reflexivity. }
    split; [exact Hsave|]. rewrite Hsave. cbn [fst].
    apply lookup_insert_eq.
  - vm_compute. reflexivity.
  - vm_compute. reflexivity.
Qed.

Lemma email_validated_and_normalised_witness :
  (fst (Booking.save Sample.registered ∅
          (Booking.create Sample.utc_host 7 (Some 1) (Some (js " Not An Email "))))
   = ∅
   /\ exists errors,
        snd (Booking.save Sample.registered ∅
               (Booking.create Sample.utc_host 7 (Some 1)
                  (Some (js " Not An Email "))))
        = Booking.ValidationError errors
        /\ In ("email"%string, js "not an email is not a valid email") errors)
  /\ (Booking.save Sample.registered ∅
        (Booking.create Sample.utc_host 7 (Some 1)
           (Some (js " USER@Example.COM ")))
      = (<[7 := Booking.create Sample.utc_host 7 (Some 1)
                  (Some (js " USER@Example.COM "))]> ∅, Booking.Saved)
      /\ fst (Booking.save Sample.registered ∅
               (Booking.create Sample.utc_host 7 (Some 1)
                  (Some (js " USER@Example.COM ")))) !! 7
         = Some (Booking.Doc 7 (Some 1) (Some (js "user@example.com")))).
Proof.
  split.
  - apply (proj1 (proj2 (proj2
             (email_validated_and_normalised Sample.utc_host 7 (Some 1)
                (js " Not An Email ") Sample.registered ∅)))).
    + vm_compute. discriminate.
    + vm_compute. reflexivity.
  - apply (proj1 (proj2 (proj2 (proj2
             (email_validated_and_normalised Sample.utc_host 7 (Some 1)
                (js " USER@Example.COM ") Sample.registered ∅))))).
    + vm_compute. reflexivity.
    + discriminate.
    + vm_compute. reflexivity.
Defined.

(** * Further properties of slug derivation *)

Section SlugMore.

Import Spec Props.

Lemma alnum_facts c :
  alnum c = true ->
  is_space c = false /\ is_hyphen c = false /\ slug_keep c = true.
Proof.
  intros Hc.
  assert (Hr : 97 <= c <= 122 \/ 48 <= c <= 57).
  { revert Hc. unfold alnum, is_lower, is_digit, in_range.
    rewrite !orb_true_iff, !andb_true_iff, !N.leb_le. tauto. }
  assert (Hsp : is_space c = false).
  { apply not_true_is_false. unfold is_space, in_range.
    rewrite !orb_true_iff, !andb_true_iff, !N.leb_le, !N.eqb_eq. lia. }
  split_all.
  - exact Hsp.
  - apply N.eqb_neq. lia.
  - revert Hc. unfold alnum, slug_keep. rewrite Hsp.
    intros ->. reflexivity.
Qed.

(** Dropping code units of a class that holds no letter or digit leaves the
    letters and digits as they are. *)
Lemma filter_drop_while (a q : N -> bool) (s : jsstring) :
  (forall c, q c = true -> a c = false) ->
  List.filter a (drop_while q s) = List.filter a s.
Proof.
  intros Hq. induction s as [|c s IH]; simpl; [reflexivity|].
  destruct (q c) eqn:Hc; [|reflexivity].
  rewrite (Hq c Hc). exact IH.
Qed.

Lemma filter_drop_while_end (a q : N -> bool) (s : jsstring) :
  (forall c, q c = true -> a c = false) ->
  List.filter a (drop_while_end q s) = List.filter a s.
Proof.
  intros Hq. unfold drop_while_end.
  rewrite filter_rev, filter_drop_while by exact Hq.
  rewrite <- filter_rev. rewrite rev_involutive. reflexivity.
Qed.

Lemma filter_collapse_runs (a q : N -> bool) (s : jsstring) :
  (forall c, q c = true -> a c = false) -> a 45 = false ->
  List.filter a (collapse_runs q s) = List.filter a s.
Proof.
  intros Hq H45. induction s as [|c s IH]; [reflexivity|].
  destruct (q c) eqn:Hc.
  - change (collapse_runs q (c :: s))
      with (if q c then match s with
                        | c' :: _ => if q c' then collapse_runs q s
                                     else 45 :: collapse_runs q s
                        | [] => [45]
                        end
            else c :: collapse_runs q s).
    rewrite Hc. simpl List.filter at 2. rewrite (Hq c Hc).
    destruct s as [|c' s]; [simpl; rewrite H45; reflexivity|].
    destruct (q c'); [exact IH|].
    simpl List.filter at 1. rewrite H45. exact IH.
  - rewrite collapse_runs_skip by exact Hc. simpl. rewrite IH. reflexivity.
Qed.

Lemma filter_filter_keep (s : jsstring) :
  List.filter alnum (List.filter (fun c => negb (stripped c)) s)
  = List.filter alnum s.
Proof.
  induction s as [|c s IH]; simpl; [reflexivity|].
  unfold stripped at 1. rewrite negb_involutive.
  fold (slug_keep c).
  destruct (alnum c) eqn:Ha.
  - destruct (alnum_facts c Ha) as (_ & _ & Hk). rewrite Hk. simpl.
    rewrite Ha, IH. reflexivity.
  - destruct (slug_keep c); simpl; [rewrite Ha|]; exact IH.
Qed.

Lemma space_not_alnum c : is_space c = true -> alnum c = false.
Proof.
  intros Hs. destruct (alnum c) eqn:Ha; [|reflexivity].
  destruct (alnum_facts c Ha) as (Hsp & _). congruence.
Qed.

Lemma hyphen_not_alnum c : is_hyphen c = true -> alnum c = false.
Proof.
  intros Hs. destruct (alnum c) eqn:Ha; [|reflexivity].
  destruct (alnum_facts c Ha) as (_ & Hh & _). congruence.
Qed.

Lemma derive_slug_alnum H T :
  List.filter alnum (derive_slug H T)
  = List.filter alnum (toLowerCase (Unicode_lower H) T).
Proof.
  unfold derive_slug, strip_hyphens, trim.
  rewrite filter_drop_while_end by apply hyphen_not_alnum.
  rewrite filter_drop_while by apply hyphen_not_alnum.
  rewrite filter_collapse_runs by first [reflexivity | apply hyphen_not_alnum].
  rewrite filter_collapse_runs by first [reflexivity | apply space_not_alnum].
  rewrite filter_filter_keep.
  rewrite filter_drop_while_end by apply space_not_alnum.
  rewrite filter_drop_while by apply space_not_alnum.
  reflexivity.
Qed.

Lemma length_drop_while q (s : jsstring) :
  (length (drop_while q s) <= length s)%nat.
Proof.
  destruct (drop_while_suffix q s) as [a Ha].
  apply (f_equal (@length N)) in Ha. rewrite length_app in Ha. lia.
Qed.

Lemma length_drop_while_end q (s : jsstring) :
  (length (drop_while_end q s) <= length s)%nat.
Proof.
  unfold drop_while_end. rewrite length_rev.
  pose proof (length_drop_while q (rev s)) as Hl.
  rewrite length_rev in Hl. exact Hl.
Qed.

Lemma length_collapse_runs q (s : jsstring) :
  (length (collapse_runs q s) <= length s)%nat.
Proof.
  induction s as [|c s IH]; [simpl; lia|].
  change (collapse_runs q (c :: s))
    with (if q c then match s with
                      | c' :: _ => if q c' then collapse_runs q s
                                   else 45 :: collapse_runs q s
                      | [] => [45]
                      end
          else c :: collapse_runs q s).
  destruct (q c); [|simpl; lia].
  destruct s as [|c' s]; [simpl; lia|].
  destruct (q c'); simpl length in *; lia.
Qed.

Lemma derive_slug_length H T :
  (length (derive_slug H T)
   <= length (toLowerCase (Unicode_lower H) T))%nat.
Proof.
  unfold derive_slug, strip_hyphens, trim.
  set (l := toLowerCase (Unicode_lower H) T).
  pose proof (length_drop_while is_space l) as H1.
  pose proof (length_drop_while_end is_space (drop_while is_space l)) as H2.
  set (t := drop_while_end is_space (drop_while is_space l)) in *.
  pose proof (filter_length_le (fun c => negb (stripped c)) t) as H3.
  set (k := List.filter _ t) in *.
  pose proof (length_collapse_runs is_space k) as H4.
  pose proof (length_collapse_runs is_hyphen (collapse_runs is_space k)) as H5.
  set (h := collapse_runs is_hyphen _) in *.
  pose proof (length_drop_while is_hyphen h) as H6.
  pose proof (length_drop_while_end is_hyphen (drop_while is_hyphen h)) as H7.
  lia.
Qed.

End SlugMore.

(** X1. The letters and digits of a slug are those of the lowercased title,
    in the same order: [slugify] removes, and turns into hyphens, only what
    is neither a lowercase letter nor a digit. *)
Theorem slugify_keeps_alnum (H : host) (T : jsstring) :
  List.filter Props.alnum (slugify H T)
  = List.filter Props.alnum (toLowerCase (Unicode_lower H) T).
Proof. rewrite slugify_derive_slug. apply derive_slug_alnum. Qed.

(** X2. The slug is empty exactly when the lowercased title holds no
    lowercase letter and no digit. *)
Theorem slugify_empty_iff (H : host) (T : jsstring) :
  slugify H T = []
  <-> existsb Props.alnum (toLowerCase (Unicode_lower H) T) = false.
Proof.
  assert (Hex : forall s : jsstring,
            existsb Props.alnum s = false <-> List.filter Props.alnum s = []).
  { induction s as [|c s IH]; simpl; [tauto|].
    destruct (Props.alnum c); simpl; [|exact IH].
    split; discriminate. }
  rewrite Hex, <- derive_slug_alnum, <- slugify_derive_slug.
  split; [intros ->; reflexivity|].
  intros Hf.
  pose proof (derive_slug_shape H T) as Hshape.
  rewrite <- slugify_derive_slug in Hshape.
  destruct (slugify H T) as [|c s]; [reflexivity|exfalso].
  unfold Spec.slug_shape in Hshape.
  apply andb_true_iff in Hshape. destruct Hshape as [Hshape _].
  apply andb_true_iff in Hshape. destruct Hshape as [Hshape Hfirst].
  apply andb_true_iff in Hshape. destruct Hshape as [Hchars _].
  simpl in Hchars, Hfirst, Hf.
  apply andb_true_iff in Hchars. destruct Hchars as [Hc _].
  apply negb_true_iff in Hfirst.
  unfold Spec.slug_char in Hc. fold (Props.alnum c) in Hc.
  rewrite Hfirst, orb_false_r in Hc. rewrite Hc in Hf. discriminate.
Qed.

(** X3. A slug is never longer than the lowercased title it comes from. *)
Theorem slugify_not_longer (H : host) (T : jsstring) :
  (length (slugify H T) <= length (toLowerCase (Unicode_lower H) T))%nat.
Proof. rewrite slugify_derive_slug. apply derive_slug_length. Qed.

(** * Further properties of time normalisation *)

Section TimeMore.

Import Props.
Variable H : host.

Lemma drop_while_twice q (s : jsstring) :
  drop_while q (drop_while q s) = drop_while q s.
Proof.
  pose proof (drop_while_not_first q s) as Hf.
  destruct (drop_while q s) as [|c t]; [reflexivity|].
  simpl. rewrite Hf. reflexivity.
Qed.

Lemma drop_while_end_twice q (s : jsstring) :
  drop_while_end q (drop_while_end q s) = drop_while_end q s.
Proof.
  unfold drop_while_end. rewrite rev_involutive, drop_while_twice. reflexivity.
Qed.

Lemma drop_while_of_drop_while_end q (s : jsstring) :
  drop_while q (drop_while_end q (drop_while q s))
  = drop_while_end q (drop_while q s).
Proof.
  pose proof (drop_while_not_first q s) as Hf.
  destruct (drop_while q s) as [|c t]; [reflexivity|].
  rewrite drop_while_end_cons. simpl forallb. rewrite Hf. simpl.
  rewrite Hf. reflexivity.
Qed.

Lemma trim_idempotent (s : jsstring) : trim (trim s) = trim s.
Proof.
  unfold trim.
  rewrite drop_while_of_drop_while_end. apply drop_while_end_twice.
Qed.

Lemma normalizeTime_of_string (s : jsstring) :
  s <> [] -> normalizeTime H (VString s) = VString (normalizeTime_string H s).
Proof. destruct s; [contradiction|reflexivity]. Qed.

Lemma normalizeTime_string_trim (s : jsstring) :
  normalizeTime_string H (trim s) = normalizeTime_string H s.
Proof. unfold normalizeTime_string. rewrite trim_idempotent. reflexivity. Qed.

Lemma string_eqb_eq (a b : jsstring) : string_eqb a b = true -> a = b.
Proof.
  revert b. induction a as [|x a IH]; intros [|y b]; simpl;
    try discriminate; [reflexivity|].
  intros Hab. apply andb_true_iff in Hab. destruct Hab as [Hxy Hab].
  apply N.eqb_eq in Hxy. subst y. rewrite (IH b Hab). reflexivity.
Qed.

Lemma digit_in_digits x : is_digit x = true -> In x digits.
Proof.
  unfold is_digit, in_range. rewrite andb_true_iff, !N.leb_le. intros Hx.
  apply in_map_iff. exists (N.to_nat x).
  split; [apply N2Nat.id|]. apply in_seq. lia.
Qed.

Lemma canonical_in_clock_strings s :
  Spec.canonical_time s = true -> In s clock_strings.
Proof.
  destruct s as [|h1 [|h2 [|c [|m1 [|m2 [|x s]]]]]]; try discriminate.
  unfold Spec.canonical_time, Spec.two_digits_in.
  rewrite !andb_true_iff, N.eqb_eq.
  intros [[[[[Hh1 Hh2] _] _] Hc] [[[Hm1 Hm2] _] _]]. subst c.
  unfold clock_strings.
  apply in_flat_map. exists h1. split; [apply digit_in_digits, Hh1|].
  apply in_flat_map. exists h2. split; [apply digit_in_digits, Hh2|].
  apply in_flat_map. exists m1. split; [apply digit_in_digits, Hm1|].
  apply in_map_iff. exists m2. split; [reflexivity|apply digit_in_digits, Hm2].
Qed.

Lemma canonical_fixed s :
  Spec.canonical_time s = true -> normalizeTime_string H s = s.
Proof.
  intros Hs.
  assert (Hall :
    forallb (fun s => if Spec.canonical_time s
                      then string_eqb (normalizeTime_string H s) s
                      else true) clock_strings = true)
    by (vm_compute; reflexivity).
  rewrite forallb_forall in Hall.
  specialize (Hall s (canonical_in_clock_strings s Hs)).
  rewrite Hs in Hall. apply string_eqb_eq, Hall.
Qed.

Lemma canonical_not_empty s : Spec.canonical_time s = true -> s <> [].
Proof. destruct s; [discriminate|discriminate]. Qed.

Lemma canonical_trimmed s : Spec.canonical_time s = true -> trim s = s.
Proof.
  intros Hs.
  assert (Hall :
    forallb (fun s => if Spec.canonical_time s
                      then string_eqb (trim s) s
                      else true) clock_strings = true)
    by (vm_compute; reflexivity).
  rewrite forallb_forall in Hall.
  specialize (Hall s (canonical_in_clock_strings s Hs)).
  rewrite Hs in Hall. apply string_eqb_eq, Hall.
Qed.

Lemma in_below n x : x < N.of_nat n -> In x (below n).
Proof. apply range_below. Qed.

(** The table of the 12-hour grammar, checked on every hour from 1 to 12,
    every minute and every way of writing them. *)
Lemma twelve_hour_table h m t sfx (pm : bool) :
  1 <= h <= 12 -> m < 60 ->
  In t (written_times h m) ->
  In sfx (suffixes (if pm then 112 else 97)) ->
  normalizeTime_string H (t ++ sfx)
  = hh_mm (String_of_N (if pm then h mod 12 + 12 else h mod 12))
          (String_of_N m).
Proof.
  intros Hh Hm Ht Hsfx.
  assert (Hall :
    forallb (fun pm : bool =>
      forallb (fun h =>
        forallb (fun m =>
          forallb (fun t =>
            forallb (fun sfx =>
              string_eqb (normalizeTime_string H (t ++ sfx))
                (hh_mm (String_of_N (if pm then h mod 12 + 12 else h mod 12))
                       (String_of_N m)))
              (suffixes (if pm then 112 else 97)))
            (written_times h m))
          (below 60))
        (List.tl (below 13)))
      [true; false] = true)
    by (vm_compute; reflexivity).
  rewrite forallb_forall in Hall.
  assert (Hpm : In pm [true; false]) by (destruct pm; simpl; tauto).
  specialize (Hall pm Hpm). rewrite forallb_forall in Hall.
  assert (Hin : In h (List.tl (below 13))).
  { assert (Hb : In h (below 13)) by (apply in_below; lia).
    unfold below in Hb |- *. simpl in Hb |- *.
    destruct Hb as [Hb|Hb]; [lia|exact Hb]. }
  specialize (Hall h Hin). rewrite forallb_forall in Hall.
  specialize (Hall m (in_below 60 m Hm)). rewrite forallb_forall in Hall.
  specialize (Hall t Ht). rewrite forallb_forall in Hall.
  apply string_eqb_eq, (Hall sfx Hsfx).
Qed.

Lemma twelve_hour_alone h hs sfx (pm : bool) :
  1 <= h <= 12 ->
  In hs (written_hours h) ->
  In sfx (suffixes (if pm then 112 else 97)) ->
  normalizeTime_string H (hs ++ sfx)
  = hh_mm (String_of_N (if pm then h mod 12 + 12 else h mod 12))
          (String_of_N 0).
Proof.
  intros Hh Ht Hsfx.
  assert (Hall :
    forallb (fun pm : bool =>
      forallb (fun h =>
        forallb (fun t =>
          forallb (fun sfx =>
            string_eqb (normalizeTime_string H (t ++ sfx))
              (hh_mm (String_of_N (if pm then h mod 12 + 12 else h mod 12))
                     (String_of_N 0)))
            (suffixes (if pm then 112 else 97)))
          (written_hours h))
        (List.tl (below 13)))
      [true; false] = true)
    by (vm_compute; reflexivity).
  rewrite forallb_forall in Hall.
  assert (Hpm : In pm [true; false]) by (destruct pm; simpl; tauto).
  specialize (Hall pm Hpm). rewrite forallb_forall in Hall.
  assert (Hin : In h (List.tl (below 13))).
  { assert (Hb : In h (below 13)) by (apply in_below; lia).
    unfold below in Hb |- *. simpl in Hb |- *.
    destruct Hb as [Hb|Hb]; [lia|exact Hb]. }
  specialize (Hall h Hin). rewrite forallb_forall in Hall.
  specialize (Hall hs Ht). rewrite forallb_forall in Hall.
  apply string_eqb_eq, (Hall sfx Hsfx).
Qed.

End TimeMore.

Section TimeHook.

Import Event Props.
Variable H : host.

Lemma suffix_not_empty letter sfx : In sfx (suffixes letter) -> sfx <> [].
Proof.
  unfold suffixes. simpl. intros Hin.
  repeat (destruct Hin as [<-|Hin]; [discriminate|]). contradiction.
Qed.

Lemma written_time_not_empty h m t : In t (written_times h m) -> t <> [].
Proof.
  unfold written_times, written_hours. simpl. intros Hin.
  repeat (destruct Hin as [<-|Hin];
          [intros E; apply app_eq_nil in E; destruct E as [_ E]; discriminate E|]).
  contradiction.
Qed.

Lemma accepted_24h_not_empty s : Spec.accepted_24h s = true -> s <> [].
Proof. intros Hs ->. vm_compute in Hs. discriminate. Qed.

Lemma time_after_hook (d : doc) :
  time (fst (pre_save H d)) =
  if isModified d "time" && present (time d)
  then Some (trim (normalizeTime_string H (or_empty (time d))))
  else time d.
Proof.
  unfold pre_save. cbn [fst].
  assert (Hx : time (normalize_date H (generate_slug H d)) = time d
               /\ isModified (normalize_date H (generate_slug H d)) "time"
                  = isModified d "time").
  { unfold normalize_date, generate_slug.
    repeat match goal with
           | |- context [if ?b then _ else _] => destruct b
           | |- context [match ?x with _ => _ end] => destruct x
           end; split; reflexivity. }
  destruct Hx as [Hx1 Hx2].
  unfold normalize_time. rewrite Hx1, Hx2.
  destruct (isModified d "time" && present (time d)) eqn:Hc; [|exact Hx1].
  apply andb_true_iff in Hc. destruct Hc as [_ Hp].
  destruct (time d) as [[|c s]|]; try discriminate.
  reflexivity.
Qed.

End TimeHook.

(** X4. The 12-hour grammar converts as a clock does: for an hour from 1 to
    12 and a minute below 60, written with or without a leading zero and
    followed by am or pm in any casing, with or without a space, the result
    is the hour modulo 12, plus 12 for pm, and the minute, both in two
    digits; an hour written alone has minute 00. *)
Theorem normalizeTime_12h_conversion (H : host) (h m : N) (pm : bool) :
  1 <= h <= 12 -> m < 60 ->
  (forall t sfx,
     In t (Props.written_times h m) ->
     In sfx (Props.suffixes (if pm then 112 else 97)) ->
     normalizeTime H (VString (t ++ sfx))
     = VString (hh_mm (String_of_N (if pm then h mod 12 + 12 else h mod 12))
                      (String_of_N m)))
  /\ (forall hs sfx,
        In hs (Props.written_hours h) ->
        In sfx (Props.suffixes (if pm then 112 else 97)) ->
        normalizeTime H (VString (hs ++ sfx))
        = VString (hh_mm (String_of_N (if pm then h mod 12 + 12 else h mod 12))
                         (String_of_N 0))).
Proof.
  intros Hh Hm. split.
  - intros t sfx Ht Hsfx.
    rewrite normalizeTime_of_string.
    + f_equal. apply twelve_hour_table; assumption.
    + intros E. apply app_eq_nil in E. destruct E as [E _].
      exact (written_time_not_empty h m t Ht E).
  - intros hs sfx Hhs Hsfx.
    rewrite normalizeTime_of_string.
    + f_equal. apply twelve_hour_alone; assumption.
    + intros E. apply app_eq_nil in E. destruct E as [_ E].
      exact (suffix_not_empty _ sfx Hsfx E).
Qed.

Lemma normalizeTime_12h_conversion_witness :
  normalizeTime Sample.utc_host (VString (js "12:05 AM")) = VString (js "00:05")
  /\ normalizeTime Sample.utc_host (VString (js "07pm")) = VString (js "19:00").
Proof.
  split.
  - apply (proj1 (normalizeTime_12h_conversion Sample.utc_host 12 5 false
                    ltac:(lia) ltac:(lia)) (js "12:05") (js " AM")).
    + vm_compute. tauto.
    + vm_compute. tauto.
  - apply (proj2 (normalizeTime_12h_conversion Sample.utc_host 7 0 true
                    ltac:(lia) ltac:(lia)) (js "07") (js "pm")).
    + vm_compute. tauto.
    + vm_compute. tauto.
Defined.

(** X5. A canonical time is left as it is by [normalizeTime], so that
    normalising twice an input of the strict 24-hour grammar gives the same
    as normalising it once. *)
Theorem normalizeTime_canonical_fixed (H : host) (s : jsstring) :
  (Spec.canonical_time s = true -> normalizeTime H (VString s) = VString s)
  /\ (Spec.accepted_24h s = true ->
      normalizeTime H (normalizeTime H (VString s))
      = normalizeTime H (VString s)).
Proof.
  assert (Hfix : forall x, Spec.canonical_time x = true ->
                           normalizeTime H (VString x) = VString x).
  { intros x Hx.
    rewrite normalizeTime_of_string by (apply canonical_not_empty, Hx).
    f_equal. apply canonical_fixed, Hx. }
  split; [apply Hfix|].
  intros Hs.
  rewrite (normalizeTime_of_string H s) by (apply accepted_24h_not_empty, Hs).
  apply Hfix. apply normalizeTime_24h_canonical, Hs.
Qed.

Lemma normalizeTime_canonical_fixed_witness :
  normalizeTime Sample.epoch_host (VString (js "23:59")) = VString (js "23:59")
  /\ normalizeTime Sample.epoch_host
       (normalizeTime Sample.epoch_host (VString (js " 7:05 ")))
     = normalizeTime Sample.epoch_host (VString (js " 7:05 ")).
Proof.
  split.
  - apply (proj1 (normalizeTime_canonical_fixed Sample.epoch_host (js "23:59"))).
    vm_compute. reflexivity.
  - apply (proj2 (normalizeTime_canonical_fixed Sample.epoch_host (js " 7:05 "))).
    vm_compute. reflexivity.
Defined.

(** X6. [normalizeTime] reads its input trimmed: white space around a time
    changes nothing, and an input that none of the three grammars accepts
    comes back trimmed, not as it was given. *)
Theorem normalizeTime_reads_trimmed (H : host) (s : jsstring) :
  (trim s <> [] ->
   normalizeTime H (VString s) = normalizeTime H (VString (trim s)))
  /\ (s <> [] ->
      Spec.accepted_24h s = false ->
      Spec.accepted_12h s = false ->
      Spec.accepted_datetime H s = false ->
      normalizeTime H (VString s) = VString (trim s)).
Proof.
  split.
  - intros Ht.
    assert (Hs : s <> []) by (intros ->; apply Ht; reflexivity).
    rewrite !normalizeTime_of_string by assumption.
    rewrite normalizeTime_string_trim. reflexivity.
  - intros Hs H24 H12 Hdt.
    rewrite normalizeTime_of_string by exact Hs. f_equal.
    unfold Spec.accepted_24h, Spec.accepted_12h, Spec.accepted_datetime in *.
    unfold normalizeTime_string.
    destruct (match_ re_ampm (trim s)); [discriminate|].
    destruct (Date_parse H (trim s)); [discriminate|].
    destruct (match_ re_hhmm (trim s)) as [m'|]; [|reflexivity].
    replace (0 <=? Number_of_digits (group 1 m')) with true
      by (symmetry; apply N.leb_le; lia).
    replace (0 <=? Number_of_digits (group 2 m')) with true
      by (symmetry; apply N.leb_le; lia).
    cbn [andb]. rewrite andb_true_r, H24. reflexivity.
Qed.

Lemma normalizeTime_reads_trimmed_witness :
  normalizeTime Sample.utc_host (VString (js "  9:00 AM "))
  = normalizeTime Sample.utc_host (VString (trim (js "  9:00 AM ")))
  /\ normalizeTime Sample.utc_host (VString (js " 25:00 ")) = VString (js "25:00").
Proof.
  split.
  - apply (proj1 (normalizeTime_reads_trimmed Sample.utc_host (js "  9:00 AM "))).
    vm_compute. discriminate.
  - apply (proj2 (normalizeTime_reads_trimmed Sample.utc_host (js " 25:00 "))).
    + discriminate.
    + vm_compute. reflexivity.
    + vm_compute. reflexivity.
    + vm_compute. reflexivity.
Defined.

(** X7. In the pre-save hook a time that was not changed, or is absent or
    empty, is left as it is; a changed time is replaced by what
    [normalizeTime] returns for it, and when it is of the strict 24-hour
    grammar the document holds it in canonical form. *)
Theorem hook_normalises_time (H : host) (d : Event.doc) (s : jsstring) :
  let d' := fst (Event.pre_save H d) in
  (Event.isModified d "time" = false -> Event.time d' = Event.time d)
  /\ (Event.present (Event.time d) = false -> Event.time d' = Event.time d)
  /\ (Event.isModified d "time" = true -> Event.time d = Some s -> s <> [] ->
      Event.time d' = Some (trim (normalizeTime_string H s))
      /\ (Spec.accepted_24h s = true ->
          Event.time d' = Some (normalizeTime_string H s)
          /\ Spec.canonical_time (normalizeTime_string H s) = true)).
Proof.
  intros d'. unfold d'. rewrite time_after_hook. split_all.
  - intros ->. reflexivity.
  - intros ->. rewrite andb_false_r. reflexivity.
  - intros Hmod Htime Hne. rewrite Hmod, Htime.
    destruct s as [|c s]; [contradiction|].
    cbn [Event.present andb Event.or_empty].
    split; [reflexivity|]. intros Hacc.
    pose proof (normalizeTime_24h_canonical H (c :: s) Hacc) as Hcan.
    rewrite (canonical_trimmed _ Hcan). split; [reflexivity|exact Hcan].
Qed.

Lemma hook_normalises_time_witness :
  Event.time (fst (Event.pre_save Sample.utc_host
                     (Sample.meetup (Some [js "Doors open"]) {[ "time"%string ]})))
  = Some (js "18:30").
Proof.
  assert (Hmod : Event.isModified
                   (Sample.meetup (Some [js "Doors open"]) {[ "time"%string ]})
                   "time" = true) by (vm_compute; reflexivity).
  assert (Hne : js "18:30" <> []) by discriminate.
  apply (proj2 (proj2 (proj2
           (hook_normalises_time Sample.utc_host
              (Sample.meetup (Some [js "Doors open"]) {[ "time"%string ]})
              (js "18:30"))) Hmod eq_refl Hne)).
  vm_compute. reflexivity.
Defined.

(** * Further properties of the Event pre-save hook *)

(** X8. When the title is among the changed fields, or the slug is absent
    or empty, the hook sets the slug to [slugify] of the title (of the empty
    string when there is no title); the slug it sets has the shape of a
    slug. *)
Theorem hook_generates_slug (H : host) (d : Event.doc) :
  Event.isModified d "title" = true \/ Event.present (Event.slug d) = false ->
  Event.slug (fst (Event.pre_save H d))
  = Some (slugify H (Event.or_empty (Event.title d)))
  /\ Spec.slug_shape (slugify H (Event.or_empty (Event.title d))) = true.
Proof.
  intros Hc. split.
  - unfold Event.pre_save. cbn [fst]. rewrite slug_after_normalize.
    unfold Event.generate_slug.
    replace (Event.isModified d "title" || negb (Event.present (Event.slug d)))
      with true; [reflexivity|].
    destruct Hc as [-> | ->]; [reflexivity|]. rewrite orb_true_r. reflexivity.
  - rewrite slugify_derive_slug. apply derive_slug_shape.
Qed.

Lemma hook_generates_slug_witness :
  Event.slug (fst (Event.pre_save Sample.utc_host Sample.draft))
  = Some (slugify Sample.utc_host (js "   "))
  /\ Spec.slug_shape (slugify Sample.utc_host (js "   ")) = true.
Proof.
  apply (hook_generates_slug Sample.utc_host Sample.draft).
  right. reflexivity.
Defined.

(** X9. The hook lets a write through exactly when, in the document as
    normalised, none of title, description, overview, image, venue,
    location, date, time, mode, audience and organizer is absent or holds
    white space only, and agenda and tags each hold one string or more. *)
Theorem hook_accepts_iff (H : host) (d : Event.doc) :
  snd (Event.pre_save H d) = Next
  <-> (forall f v,
         In (f, v) (Fields.required_strings (fst (Event.pre_save H d))) ->
         Fields.is_blank v = false)
      /\ (exists x l, Event.agenda d = Some (x :: l))
      /\ (exists x l, Event.tags d = Some (x :: l)).
Proof.
  destruct (hook_verdict H d) as [Hblank Hrest]. cbv zeta in Hblank, Hrest.
  split.
  - intros Hnext.
    assert (Hall : forall f v,
              In (f, v) (Fields.required_strings (fst (Event.pre_save H d))) ->
              Fields.is_blank v = false).
    { intros f v Hin. destruct (Fields.is_blank v) eqn:Hb; [|reflexivity].
      destruct (Hblank f v Hin Hb) as (g & w & _ & _ & Hout).
      rewrite Hnext in Hout. discriminate. }
    destruct (Hrest Hall) as [Hagenda Hmore].
    assert (Ha : exists x l, Event.agenda d = Some (x :: l)).
    { destruct (Event.agenda d) as [[|x l]|] eqn:Ea; [| eauto |].
      - rewrite Hnext in Hagenda. discriminate (Hagenda (or_intror eq_refl)).
      - rewrite Hnext in Hagenda. discriminate (Hagenda (or_introl eq_refl)). }
    destruct (Hmore Ha) as [Htags _].
    split_all; [exact Hall|exact Ha|].
    destruct (Event.tags d) as [[|x l]|] eqn:Et; [| eauto |].
    + rewrite Hnext in Htags. discriminate (Htags (or_intror eq_refl)).
    + rewrite Hnext in Htags. discriminate (Htags (or_introl eq_refl)).
  - intros (Hall & Ha & Ht).
    apply (proj2 (proj2 (Hrest Hall) Ha) Ht).
Qed.

(** * Further properties of the Booking model *)

Section BookingMore.

Import Booking.

Lemma validate_nil_iff (b : doc) :
  validate b = [] <->
  (exists id, eventId b = Some id)
  /\ (exists v, email b = Some v /\ v <> [] /\ validator v = true).
Proof.
  unfold validate, validate_eventId, validate_email. split.
  - intros Hv. apply app_eq_nil in Hv. destruct Hv as [He Hm].
    destruct (eventId b) as [id|]; [|discriminate].
    destruct (email b) as [[|c v]|]; try discriminate.
    destruct (validator (c :: v)) eqn:Hval; [|discriminate].
    split; [exists id; reflexivity|].
    exists (c :: v). split_all; [reflexivity|discriminate|exact Hval].
  - intros [[id ->] (v & -> & Hne & Hval)].
    destruct v as [|c v]; [contradiction|]. rewrite Hval. reflexivity.
Qed.

Lemma pre_save_next_iff (events : gmap ObjectId Event.doc) (ms : models)
    (b : doc) :
  ms !! "Event"%string = Some (model_of events) ->
  pre_save ms b = Next <->
  exists id, eventId b = Some id /\ is_Some (events !! id).
Proof.
  intros Hm. unfold pre_save. split.
  - destruct (eventId b) as [id|]; [|discriminate].
    rewrite Hm. simpl.
    destruct (bool_decide (is_Some (events !! id))) eqn:Hd; [|discriminate].
    intros _. exists id. split; [reflexivity|].
    apply bool_decide_eq_true in Hd. exact Hd.
  - intros (id & -> & Hid). rewrite Hm. simpl.
    rewrite bool_decide_eq_true_2 by exact Hid. reflexivity.
Qed.

Lemma atom_word_chars w :
  Spec.atom_word w -> forallb Props.domain_char w = true.
Proof.
  intros [_ Hw]. apply forallb_forall. intros c Hc.
  rewrite forallb_forall in Hw. unfold Props.domain_char.
  rewrite (Hw c Hc). reflexivity.
Qed.

Lemma labels_chars labels :
  Forall Spec.atom_word labels ->
  forallb Props.domain_char
    (List.concat (List.map (fun x => x ++ [46]) labels)) = true.
Proof.
  induction 1 as [|a l Ha _ IH]; [reflexivity|].
  simpl. rewrite !forallb_app, (atom_word_chars a Ha), IH. reflexivity.
Qed.

Lemma lower_ascii_space c : is_space (lower_ascii c) = is_space c.
Proof.
  unfold lower_ascii. destruct (is_upper c) eqn:Hu; [|reflexivity].
  unfold is_upper, in_range in Hu.
  apply andb_true_iff in Hu. rewrite !N.leb_le in Hu.
  transitivity false; [|symmetry]; apply not_true_is_false;
    unfold is_space, in_range;
    rewrite !orb_true_iff, !andb_true_iff, !N.leb_le, !N.eqb_eq; lia.
Qed.

Lemma lower_ascii_twice c : lower_ascii (lower_ascii c) = lower_ascii c.
Proof.
  destruct (is_upper c) eqn:Hu.
  - assert (E : lower_ascii c = c + 32) by (unfold lower_ascii; rewrite Hu; reflexivity).
    rewrite E. unfold lower_ascii.
    replace (is_upper (c + 32)) with false; [reflexivity|].
    symmetry. apply not_true_is_false.
    unfold is_upper, in_range in *. apply andb_true_iff in Hu.
    rewrite !N.leb_le in Hu. rewrite andb_true_iff, !N.leb_le. lia.
  - assert (E : lower_ascii c = c) by (unfold lower_ascii; rewrite Hu; reflexivity).
    rewrite !E. reflexivity.
Qed.

Lemma lower_ascii_ascii c : is_ascii c = true -> is_ascii (lower_ascii c) = true.
Proof.
  unfold lower_ascii, is_ascii. destruct (is_upper c) eqn:Hu; [|tauto].
  unfold is_upper, in_range in Hu. apply andb_true_iff in Hu.
  rewrite !N.leb_le in Hu. rewrite !N.ltb_lt. lia.
Qed.

Lemma map_drop_while (f : N -> N) q (s : jsstring) :
  (forall c, q (f c) = q c) ->
  List.map f (drop_while q s) = drop_while q (List.map f s).
Proof.
  intros Hq. induction s as [|c s IH]; simpl; [reflexivity|].
  rewrite Hq. destruct (q c); [exact IH|reflexivity].
Qed.

Lemma map_trim (f : N -> N) (s : jsstring) :
  (forall c, is_space (f c) = is_space c) ->
  List.map f (trim s) = trim (List.map f s).
Proof.
  intros Hq. unfold trim, drop_while_end.
  rewrite map_rev, map_drop_while by exact Hq.
  rewrite map_rev, map_drop_while by exact Hq. reflexivity.
Qed.

Lemma forallb_trim p (s : jsstring) :
  forallb p s = true -> forallb p (trim s) = true.
Proof.
  intros Hs. unfold trim, drop_while_end. rewrite forallb_rev.
  destruct (drop_while_suffix is_space
              (rev (drop_while is_space s))) as [a Ha].
  assert (Hr : forallb p (rev (drop_while is_space s)) = true).
  { rewrite forallb_rev.
    destruct (drop_while_suffix is_space s) as [a' Ha'].
    rewrite Ha', forallb_app in Hs. apply andb_true_iff in Hs. apply Hs. }
  rewrite Ha, forallb_app in Hr. apply andb_true_iff in Hr. apply Hr.
Qed.

End BookingMore.

(** X10. With a registered Event collection, [save] ends with [Saved]
    exactly when the Booking has an eventId that is the identifier of a
    stored Event and a non-empty email that the validator accepts: no
    Booking is written for an Event that does not exist.  On success the
    collection holds the document under its identifier and is otherwise
    unchanged; on any failure it is unchanged. *)
Theorem save_succeeds_iff (events : gmap Booking.ObjectId Event.doc)
    (ms : Booking.models) (bookings : gmap Booking.ObjectId Booking.doc)
    (b : Booking.doc) :
  ms !! "Event"%string = Some (Booking.model_of events) ->
  (snd (Booking.save ms bookings b) = Booking.Saved <->
   (exists id, Booking.eventId b = Some id /\ is_Some (events !! id))
   /\ (exists v, Booking.email b = Some v /\ v <> []
                 /\ Booking.validator v = true))
  /\ (snd (Booking.save ms bookings b) = Booking.Saved ->
      fst (Booking.save ms bookings b) !! Booking._id b = Some b
      /\ forall j, j <> Booking._id b ->
                   fst (Booking.save ms bookings b) !! j = bookings !! j)
  /\ (snd (Booking.save ms bookings b) <> Booking.Saved ->
      fst (Booking.save ms bookings b) = bookings).
Proof.
  intros Hm.
  pose proof (validate_nil_iff b) as Hval.
  pose proof (pre_save_next_iff events ms b Hm) as Hhook.
  split_all.
  - unfold Booking.save. split.
    + destruct (Booking.validate b) eqn:Hv; [|discriminate].
      destruct (Booking.pre_save ms b) eqn:Hp; [|discriminate].
      intros _. split; [apply Hhook; reflexivity|].
      apply Hval. reflexivity.
    + intros [Hid Hmail].
      assert (Hv : Booking.validate b = []).
      { apply Hval. split; [|exact Hmail].
        destruct Hid as (id & Hid & _). exists id. exact Hid. }
      apply Hhook in Hid. rewrite Hv, Hid. reflexivity.
  - unfold Booking.save.
    destruct (Booking.validate b); [|discriminate].
    destruct (Booking.pre_save ms b); [|discriminate].
    intros _. cbn [fst]. split; [apply lookup_insert_eq|].
    intros j Hj. apply lookup_insert_ne. congruence.
  - apply save_stores_only_on_success.
Qed.

Lemma save_succeeds_iff_witness :
  fst (Booking.save Sample.registered ∅ (Sample.booking (Some 1))) !! 7
  = Some (Sample.booking (Some 1))
  /\ fst (Booking.save Sample.registered ∅ (Sample.booking (Some 2))) = ∅.
Proof.
  split.
  - apply (proj1 (proj2 (save_succeeds_iff Sample.one_event Sample.registered ∅
                           (Sample.booking (Some 1)) eq_refl))).
    vm_compute. reflexivity.
  - apply (proj2 (proj2 (save_succeeds_iff Sample.one_event Sample.registered ∅
                           (Sample.booking (Some 2)) eq_refl))).
    vm_compute. discriminate.
Defined.

(** X11. When the query for the Event is rejected, the hook hands the reason
    of the rejection to [next], and nothing is written. *)
Theorem query_failure_propagates (ms : Booking.models) (m : Booking.model)
    (bookings : gmap Booking.ObjectId Booking.doc) (b : Booking.doc)
    (id : Booking.ObjectId) (reason : jsstring) :
  Booking.eventId b = Some id ->
  ms !! "Event"%string = Some m ->
  Booking.exists_ m id = Booking.Rejected reason ->
  Booking.pre_save ms b = NextError reason
  /\ fst (Booking.save ms bookings b) = bookings.
Proof.
  intros He Hm Hq.
  assert (Hp : Booking.pre_save ms b = NextError reason).
  { unfold Booking.pre_save. rewrite He, Hm, Hq. reflexivity. }
  split; [exact Hp|]. apply save_refused. rewrite Hp. discriminate.
Qed.

Lemma query_failure_propagates_witness :
  Booking.pre_save
    {[ "Event"%string := Booking.Model (fun _ => Booking.Rejected (js "timeout")) ]}
    (Sample.booking (Some 1))
  = NextError (js "timeout")
  /\ fst (Booking.save
            {[ "Event"%string := Booking.Model (fun _ => Booking.Rejected (js "timeout")) ]}
            ∅ (Sample.booking (Some 1))) = ∅.
Proof.
  apply (query_failure_propagates _
           (Booking.Model (fun _ => Booking.Rejected (js "timeout")))
           ∅ (Sample.booking (Some 1)) 1 (js "timeout")).
  - reflexivity.
  - reflexivity.
  - reflexivity.
Defined.

(** X12. An address the validator accepts splits at an at sign into a
    non-empty local part and a domain that holds only the code units of an
    atom and dots (so no white space and no further at sign), holds a dot,
    and has four code units or more; the address has six or more. *)
Theorem accepted_address_shape (v : jsstring) :
  Booking.validator v = true ->
  exists l dm,
    v = l ++ 64 :: dm
    /\ l <> []
    /\ forallb Props.domain_char dm = true
    /\ In 46 dm
    /\ (4 <= length dm)%nat
    /\ (6 <= length v)%nat.
Proof.
  intros Hv. apply validator_grammar in Hv.
  destruct Hv as (l & dm & -> & Hl & labels & tld & -> & Hne & Hlab & Htld & Hlen).
  assert (Hl' : l <> []).
  { destruct Hl as [(a & atoms & -> & [Ha _] & _)|(inner & -> & _)];
      [|discriminate].
    destruct a; [contradiction|discriminate]. }
  exists l, (List.concat (List.map (fun x => x ++ [46]) labels) ++ tld).
  destruct labels as [|a labels]; [contradiction|].
  inversion Hlab as [|? ? Ha Hlab']; subst.
  assert (Ha' : a <> []) by apply Ha.
  split_all.
  - reflexivity.
  - exact Hl'.
  - rewrite forallb_app, (labels_chars _ Hlab). simpl.
    apply forallb_forall. intros c Hc. rewrite forallb_forall in Htld.
    unfold Props.domain_char. rewrite (Htld c Hc). reflexivity.
  - simpl. apply in_or_app. left. apply in_or_app. left.
    apply in_or_app. right. left. reflexivity.
  - simpl. rewrite !length_app. simpl. destruct a; [contradiction|]. simpl. lia.
  - rewrite length_app. simpl. rewrite !length_app. simpl.
    destruct a; [contradiction|]. destruct l; [contradiction|]. simpl. lia.
Qed.

Lemma accepted_address_shape_witness :
  exists l dm,
    js "user@example.com" = l ++ 64 :: dm
    /\ l <> []
    /\ forallb Props.domain_char dm = true
    /\ In 46 dm
    /\ (4 <= length dm)%nat
    /\ (6 <= length (js "user@example.com"))%nat.
Proof.
  apply (accepted_address_shape (js "user@example.com")).
  vm_compute. reflexivity.
Defined.

(** X13. For an input of ASCII code units the setters of the email are
    idempotent: a value already trimmed and lowercased is held as it is. *)
Theorem set_email_idempotent (H : host) (v : jsstring) :
  forallb is_ascii v = true ->
  Booking.set_email H (Booking.set_email H v) = Booking.set_email H v.
Proof.
  intros Hv. unfold Booking.set_email, toLowerCase. rewrite Hv.
  assert (Hm : forallb is_ascii (List.map lower_ascii v) = true).
  { apply forallb_forall. intros c Hc. apply in_map_iff in Hc.
    destruct Hc as (x & <- & Hx). rewrite forallb_forall in Hv.
    apply lower_ascii_ascii, Hv, Hx. }
  rewrite (forallb_trim _ _ Hm).
  rewrite (map_trim lower_ascii _ lower_ascii_space).
  rewrite map_map.
  rewrite (map_ext _ lower_ascii lower_ascii_twice).
  apply trim_idempotent.
Qed.

Lemma set_email_idempotent_witness :
  Booking.set_email Sample.utc_host
    (Booking.set_email Sample.utc_host (js " USER@Example.COM "))
  = Booking.set_email Sample.utc_host (js " USER@Example.COM ").
Proof.
  apply (set_email_idempotent Sample.utc_host (js " USER@Example.COM ")).
  vm_compute. reflexivity.
Defined.

(** * The connection helper *)

Section ConnectionFacts.

Import Connection.
Variable connect : nat -> jsstring -> options -> Booking.settled Mongoose.
Variable uri : jsstring.

Lemma fresh_attempted_once : attempted_once connect uri fresh.
Proof. left. split; reflexivity. Qed.

Lemma reload_same (w : world) : reload w = w.
Proof. destruct w as [c l]. reflexivity. Qed.

(** A call from a reachable state settles as the first attempt, leaves
    exactly one attempt on record and keeps the state reachable. *)
Lemma call_attempted_once (w : world) :
  attempted_once connect uri w ->
  attempted_once connect uri (fst (connectToDatabase connect uri w))
  /\ snd (connectToDatabase connect uri w) = connect 0 uri (Options true 10000)
  /\ connect_calls (fst (connectToDatabase connect uri w))
     = [(uri, Options true 10000)].
Proof.
  destruct w as [[cn pr] calls]. unfold attempted_once, connectToDatabase.
  cbn [cached connect_calls conn promise].
  intros [[Hc Hl]|(Hl & Hp & Hcn)].
  - injection Hc as -> ->. subst calls. cbn [length].
    destruct (connect 0 uri (Options true 10000)) as [m|reason] eqn:Hfirst;
      cbn [fst snd cached connect_calls conn promise]; split_all;
      try reflexivity; right; split_all; try reflexivity.
    + right. exists m. split; reflexivity.
    + left. reflexivity.
  - subst calls pr.
    destruct Hcn as [->|(m & Hfirst & ->)].
    + destruct (connect 0 uri (Options true 10000)) as [m|reason] eqn:Hfirst;
        cbn [fst snd cached connect_calls conn promise]; split_all;
        try reflexivity; right; split_all; try reflexivity.
      * right. exists m. split; reflexivity.
      * left. reflexivity.
    + cbn [fst snd cached connect_calls conn promise]. split_all.
      * right. split_all; try reflexivity. right. exists m. split; [exact Hfirst|reflexivity].
      * symmetry. exact Hfirst.
      * reflexivity.
Qed.

Lemma run_steps_attempted_once steps : forall w,
  attempted_once connect uri w ->
  attempted_once connect uri (fst (run_steps connect uri steps w))
  /\ Forall (eq (connect 0 uri (Options true 10000)))
       (snd (run_steps connect uri steps w))
  /\ (In Call steps ->
      connect_calls (fst (run_steps connect uri steps w))
      = [(uri, Options true 10000)])
  /\ (length (connect_calls (fst (run_steps connect uri steps w))) <= 1)%nat.
Proof.
  induction steps as [|st steps IH]; intros w Hw.
  - cbn [run_steps fst snd]. split_all; [exact Hw|constructor|intros []|].
    destruct Hw as [[_ ->]|(-> & _)]; simpl; lia.
  - destruct st.
    + cbn [run_steps].
      destruct (call_attempted_once w Hw) as (Hw1 & Hr & Hl).
      destruct (connectToDatabase connect uri w) as [w1 r] eqn:Hcall.
      cbn [fst snd] in Hw1, Hr, Hl.
      destruct (IH w1 Hw1) as (Hw2 & Hrs & Hcalls & Hlen).
      destruct (run_steps connect uri steps w1) as [w2 rs] eqn:Hrun.
      cbn [fst snd] in *. split_all.
      * exact Hw2.
      * constructor; [symmetry; exact Hr|exact Hrs].
      * intros _. destruct Hw2 as [[_ Hnil]|(Hone & _)]; [|exact Hone].
        exfalso.
        assert (Hmono : forall steps w, connect_calls w <> [] ->
                  connect_calls (fst (run_steps connect uri steps w)) <> []).
        { clear. induction steps as [|st steps IH]; intros w Hne; [exact Hne|].
          destruct st; cbn [run_steps].
          - destruct (connectToDatabase connect uri w) as [w1 r] eqn:Hc.
            specialize (IH w1).
            destruct (run_steps connect uri steps w1) as [w2 rs].
            cbn [fst] in *. apply IH.
            unfold connectToDatabase in Hc.
            destruct (conn (cached w)); [injection Hc as <- _; exact Hne|].
            destruct (promise (cached w)) as [pr|].
            + destruct pr; injection Hc as <- _; exact Hne.
            + destruct (connect _ _ _); injection Hc as <- _; discriminate.
          - apply IH. rewrite reload_same. exact Hne. }
        apply (Hmono steps w1); [rewrite Hl; discriminate|].
        rewrite Hrun. exact Hnil.
      * exact Hlen.
    + cbn [run_steps]. rewrite reload_same.
      destruct (IH w Hw) as (Hw2 & Hrs & Hcalls & Hlen).
      split_all; [exact Hw2|exact Hrs| |exact Hlen].
      intros [Hin|Hin]; [discriminate|apply Hcalls, Hin].
Qed.

End ConnectionFacts.

(** X14. However many times [connectToDatabase] is called, and whatever hot
    reloads of the module come in between, [mongoose.connect] is called at
    most once, and exactly once, with the connection string and the options
    of the module, as soon as there is a call. *)
Theorem connect_called_once
    (connect : nat -> jsstring -> Connection.options
               -> Booking.settled Connection.Mongoose)
    (uri : jsstring) (steps : list Connection.step) :
  let w := fst (Connection.run_steps connect uri steps Connection.fresh) in
  (length (Connection.connect_calls w) <= 1)%nat
  /\ (In Connection.Call steps ->
      Connection.connect_calls w = [(uri, Connection.Options true 10000)]).
Proof.
  intros w.
  destruct (run_steps_attempted_once connect uri steps Connection.fresh
              (fresh_attempted_once connect uri)) as (_ & _ & Hcalls & Hlen).
  split; assumption.
Qed.

Lemma connect_called_once_witness :
  Connection.connect_calls
    (fst (Connection.run_steps (fun _ _ _ => Booking.Resolved 5)
            (js "mongodb://db")
            [Connection.Call; Connection.Reload; Connection.Call]
            Connection.fresh))
  = [(js "mongodb://db", Connection.Options true 10000)].
Proof.
  apply (proj2 (connect_called_once (fun _ _ _ => Booking.Resolved 5)
                  (js "mongodb://db")
                  [Connection.Call; Connection.Reload; Connection.Call])).
  simpl. tauto.
Defined.

(** X15. Every call of [connectToDatabase] settles as the first attempt
    did, even where a later attempt would settle differently: after a
    success every call returns the same instance, and after a failure every
    call is rejected with the same reason, the helper never trying
    again. *)
Theorem connect_outcome_sticks
    (connect : nat -> jsstring -> Connection.options
               -> Booking.settled Connection.Mongoose)
    (uri : jsstring) (steps : list Connection.step) :
  Forall (eq (connect 0%nat uri (Connection.Options true 10000)))
    (snd (Connection.run_steps connect uri steps Connection.fresh)).
Proof.
  apply (run_steps_attempted_once connect uri steps Connection.fresh
           (fresh_attempted_once connect uri)).
Qed.

(** X16. Evaluating the module throws exactly when neither [MONGODB_URI]
    nor [NEXT_PUBLIC_MONGODB_URI] holds a non-empty string; otherwise the
    connection string is the first of the two that is non-empty, an empty
    [MONGODB_URI] giving way to the fallback. *)
Theorem module_load_uri (e : Connection.process_env) :
  (Connection.load e = inr Connection.missing_uri_message <->
   Event.present (Connection.env_MONGODB_URI e) = false
   /\ Event.present (Connection.env_NEXT_PUBLIC_MONGODB_URI e) = false)
  /\ (Event.present (Connection.env_MONGODB_URI e) = true ->
      Connection.load e = inl (Event.or_empty (Connection.env_MONGODB_URI e)))
  /\ (Event.present (Connection.env_MONGODB_URI e) = false ->
      Event.present (Connection.env_NEXT_PUBLIC_MONGODB_URI e) = true ->
      Connection.load e
      = inl (Event.or_empty (Connection.env_NEXT_PUBLIC_MONGODB_URI e))).
Proof.
  unfold Connection.load, Connection.MONGODB_URI, Connection.or_string.
  destruct (Event.present (Connection.env_MONGODB_URI e)) eqn:Ha;
    [rewrite Ha|];
    destruct (Event.present (Connection.env_NEXT_PUBLIC_MONGODB_URI e)) eqn:Hb;
    split_all; try split; try reflexivity; try discriminate;
    try (intros [? ?]; discriminate); try (intros; split; reflexivity).
Qed.

Lemma module_load_uri_witness :
  Connection.load (Connection.Env (Some []) (Some (js "mongodb://fallback")))
  = inl (js "mongodb://fallback").
Proof.
  apply (proj2 (proj2 (module_load_uri
           (Connection.Env (Some []) (Some (js "mongodb://fallback")))))).
  - reflexivity.
  - reflexivity.
Defined.
